(** * Thread profiling gates of libvips: [libvips/iofuncs/gate.c]

    A shallow embedding of the per-thread gate recorder.  The linked list of
    timing blocks, the per-gate pair of chains, the per-thread hash table of
    gates and the process-wide profile log are modelled after the C structs
    and functions of the file, which keep their names.  Every [g_new] result
    carries the address it was handed, so that frees can be accounted for. *)

From stdpp Require Import base numbers list strings gmap sorting pretty.

#[local] Set Warnings "-clear-no-such-hyp".

(** ** Data model *)

(** [#define VIPS_GATE_SIZE (1000)] *)
Definition VIPS_GATE_SIZE : Z := 1000.

(** The address of a [g_new]/[g_new0] allocation, and a thread identity. *)
Definition addr := positive.
Definition GThread := nat.

(** [struct _VipsThreadGateBlock]: [prev] is the older block or NULL,
    [time] the array of [VIPS_GATE_SIZE] slots, [i] the next slot to fill. *)
#[local] Unset Elimination Schemes.
Inductive VipsThreadGateBlock : Type :=
  Block {
    blk_addr : addr;
    blk_prev : option VipsThreadGateBlock;
    blk_time : list Z;
    blk_i : Z
  }.
#[local] Set Elimination Schemes.

(** [struct _VipsThreadGate] *)
Record VipsThreadGate : Type :=
  Gate {
    gate_addr : addr;
    gate_name : string;
    gate_start : VipsThreadGateBlock;
    gate_stop : VipsThreadGateBlock
  }.

(** A [GHashTable] made by [g_hash_table_new_full (g_str_hash, g_str_equal,
    NULL, vips_thread_gate_free)]: keys are compared by content. *)
Record GHashTable : Type :=
  HashTable {
    tbl_addr : addr;
    tbl_entries : gmap string VipsThreadGate
  }.

(** [struct _VipsThreadProfile]; the [thread] field is never assigned or
    read in this file and is left out. *)
Record VipsThreadProfile : Type :=
  Profile {
    profile_addr : addr;
    profile_name : string;
    profile_gates : GHashTable
  }.

(** Each [fprintf] call of the file, by its format string. *)
Inductive fprintf_call : Type :=
  | FmtTime (t : Z)                         (* "%" G_GINT64_FORMAT " " *)
  | FmtNewline                              (* "\n" *)
  | FmtGate (name : string)                 (* "gate: %s\n" *)
  | FmtStart                                (* "start:\n" *)
  | FmtStop                                 (* "stop:\n" *)
  | FmtThread (name : string) (p : addr).   (* "thread: %s (%p)\n" *)

(** What the functions of the file do to the world outside their data. *)
Inductive effect : Type :=
  | Malloc (a : addr)
  | Free (a : addr)
  | FileOpenWrite (path : string) (truncate : bool) (opened : bool)
  | Fprintf (c : fprintf_call)
  | Printf (text : string)
  | Fclose
  | MutexLock
  | MutexUnlock.

Global Instance fprintf_call_eq_dec : EqDecision fprintf_call.
Proof. solve_decision. Defined.

Global Instance effect_eq_dec : EqDecision effect.
Proof. solve_decision. Defined.

(** The two pointers among the statics point to one object each. *)
Inductive GPrivate : Type := ProfileKey.
Inductive FILE : Type := ProfileLog.

(** The statics of the file and what surrounds them:
    - [vips__thread_profile], the enable flag;
    - [vips_thread_profile_key], NULL until the one-time initialisation;
    - [vips__thread_fp], NULL or the open log;
    - [once], the [GOnce] of [vips__thread_profile_attach];
    - [private_values], the value of the key on each thread;
    - [allocated], the live [g_new] allocations;
    - [log_writable], whether "vips-profile.txt" can be created;
    - [effects], the trace of effects so far, oldest first. *)
Record Process : Type :=
  MkProcess {
    vips__thread_profile : bool;
    vips_thread_profile_key : option GPrivate;
    vips__thread_fp : option FILE;
    once : bool;
    private_values : gmap GThread VipsThreadProfile;
    allocated : gset addr;
    log_writable : bool;
    effects : list effect
  }.

Definition set_key (k : option GPrivate) (s : Process) : Process :=
  MkProcess (vips__thread_profile s) k (vips__thread_fp s) (once s)
    (private_values s) (allocated s) (log_writable s) (effects s).

Definition set_fp (fp : option FILE) (s : Process) : Process :=
  MkProcess (vips__thread_profile s) (vips_thread_profile_key s) fp (once s)
    (private_values s) (allocated s) (log_writable s) (effects s).

Definition set_once (o : bool) (s : Process) : Process :=
  MkProcess (vips__thread_profile s) (vips_thread_profile_key s)
    (vips__thread_fp s) o
    (private_values s) (allocated s) (log_writable s) (effects s).

Definition set_private (pv : gmap GThread VipsThreadProfile) (s : Process)
  : Process :=
  MkProcess (vips__thread_profile s) (vips_thread_profile_key s)
    (vips__thread_fp s) (once s)
    pv (allocated s) (log_writable s) (effects s).

Definition set_allocated (al : gset addr) (s : Process) : Process :=
  MkProcess (vips__thread_profile s) (vips_thread_profile_key s)
    (vips__thread_fp s) (once s)
    (private_values s) al (log_writable s) (effects s).

Definition add_effects (es : list effect) (s : Process) : Process :=
  MkProcess (vips__thread_profile s) (vips_thread_profile_key s)
    (vips__thread_fp s) (once s)
    (private_values s) (allocated s) (log_writable s) (effects s ++ es).

(** ** The monad of the embedding: state, and the ways a call can end *)

Inductive outcome (A : Type) : Type :=
  | Ok (a : A)
  | AssertionFailed            (* a [g_assert] that does not hold *)
  | ErrorExit (msg : string)   (* [vips_error_exit] *)
  | Undefined                  (* undefined behaviour of C *)
  | OutsideContract.           (* a GLib call its documentation leaves open *)
Arguments Ok {A} a.
Arguments AssertionFailed {A}.
Arguments ErrorExit {A} msg.
Arguments Undefined {A}.
Arguments OutsideContract {A}.

Definition M (A : Type) : Type := Process → outcome (A * Process).

Definition ret {A} (a : A) : M A := λ s, Ok (a, s).

Definition bind {A B} (m : M A) (k : A → M B) : M B :=
  λ s, match m s with
       | Ok (a, s') => k a s'
       | AssertionFailed => AssertionFailed
       | ErrorExit msg => ErrorExit msg
       | Undefined => Undefined
       | OutsideContract => OutsideContract
       end.

Notation "x <- m ;; k" := (bind m (λ x, k))
  (at level 100, m at next level, right associativity).
Notation "m ;;; k" := (bind m (λ _, k))
  (at level 100, right associativity).

Definition undefined {A} : M A := λ _, Undefined.
Definition outside_contract {A} : M A := λ _, OutsideContract.
Definition g_assert (b : bool) : M unit :=
  λ s, if b then Ok (tt, s) else AssertionFailed.

(** Modelled from the spec: [vips_error_exit] is defined elsewhere in the
    library.  [fatal_exit (message)] terminates the process with a
    diagnostic. *)
Definition vips_error_exit (msg : string) : M unit := λ _, ErrorExit msg.


Definition gets {A} (f : Process → A) : M A := λ s, Ok (f s, s).
Definition modify (f : Process → Process) : M unit := λ s, Ok (tt, f s).
Definition emit (e : effect) : M unit := modify (add_effects [e]).

Fixpoint foreach {A} (f : A → M unit) (l : list A) : M unit :=
  match l with
  | [] => ret tt
  | x :: l' => f x ;;; foreach f l'
  end.

(** ** The C library and GLib, as far as the file uses them *)

(** The character that "\n" stands for in a C string. *)
Definition newline : string := String (Ascii.ascii_of_nat 10) EmptyString.

Definition fprintf (c : fprintf_call) : M unit := emit (Fprintf c).

(** [g_new (T, 1)] and [g_new0 (T, 1)]: a block of memory that is not live
    yet.  They abort the process when memory runs out, which is left out. *)
Definition g_new : M addr :=
  λ s, let a := fresh (allocated s) in
       Ok (a, add_effects [Malloc a] (set_allocated ({[a]} ∪ allocated s) s)).

(** [g_free]: freeing what is not live is undefined. *)
Definition g_free (a : addr) : M unit :=
  λ s, if decide (a ∈ allocated s)
       then Ok (tt, add_effects [Free a]
                      (set_allocated (allocated s ∖ {[a]}) s))
       else Undefined.

(** Reading and writing a slot of an array; out of range is undefined. *)
Definition array_load (a : list Z) (idx : Z) : M Z :=
  if decide (0 ≤ idx)%Z
  then match a !! Z.to_nat idx with
       | Some v => ret v
       | None => undefined
       end
  else undefined.

Definition array_store (a : list Z) (idx : Z) (v : Z) : M (list Z) :=
  if decide (0 ≤ idx < Z.of_nat (length a))%Z
  then ret (<[Z.to_nat idx := v]> a)
  else undefined.

(** ** Gate blocks *)

(** The loop [for (i = block->i - 1; i >= 0; i--) fprintf (.., time[i])],
    with [n] the number of iterations left: the index is [n - 1]. *)
Fixpoint save_times (time : list Z) (n : nat) : M unit :=
  match n with
  | O => ret tt
  | S k =>
      t <- array_load time (Z.of_nat k) ;;
      fprintf (FmtTime t) ;;;
      save_times time k
  end.

Fixpoint vips_thread_gate_block_save (block : VipsThreadGateBlock) : M unit :=
  save_times (blk_time block) (Z.to_nat (blk_i block)) ;;;
  fprintf FmtNewline ;;;
  match blk_prev block with
  | Some prev => vips_thread_gate_block_save prev
  | None => ret tt
  end.

(** [g_new0 (VipsThreadGateBlock, 1)]: all fields zero. *)
Definition zeroed_times : list Z := replicate (Z.to_nat VIPS_GATE_SIZE) 0%Z.

Definition g_new0_block : M VipsThreadGateBlock :=
  a <- g_new ;;
  ret (Block a None zeroed_times 0).

(** The argument is [*block] before the call, the result [*block] after. *)
Definition vips_thread_gate_block_add (block : VipsThreadGateBlock)
  : M VipsThreadGateBlock :=
  new_block <- g_new0_block ;;
  ret (Block (blk_addr new_block) (Some block)
         (blk_time new_block) (blk_i new_block)).

(** The tail shared by [vips__thread_gate_start] and
    [vips__thread_gate_stop], on the chain [block] of the gate:
    [if (block->i >= VIPS_GATE_SIZE) vips_thread_gate_block_add (&block);
     block->time[block->i++] = t;]
    The store is in range before [i] is incremented, so [i + 1] cannot
    leave the range of [int]. *)
Definition gate_block_record (block : VipsThreadGateBlock) (t : Z)
  : M VipsThreadGateBlock :=
  block <- (if decide (VIPS_GATE_SIZE ≤ blk_i block)%Z
            then vips_thread_gate_block_add block
            else ret block) ;;
  time <- array_store (blk_time block) (blk_i block) t ;;
  ret (Block (blk_addr block) (blk_prev block) time (blk_i block + 1)).


(** ** Gates and the per-thread profile *)

(** Modelled from the spec: the macros [VIPS_FREEF] and [VIPS_FREE] come
    from a header that is not part of these sources.  The spec has teardown
    release each object and the stop call close the stream once:
    [VIPS_FREEF (F, S)] calls [F] on [S] when [S] is not NULL and leaves [S]
    NULL; [VIPS_FREE (S)] is [VIPS_FREEF (g_free, S)].  The caller writes the
    NULL back where the pointer outlives the call. *)
Definition VIPS_FREEF {A} (F : A → M unit) (S : option A) : M unit :=
  match S with
  | Some p => F p
  | None => ret tt
  end.

Definition VIPS_FREE (S : addr) : M unit := VIPS_FREEF g_free (Some S).

Definition vips_thread_profile_save_gate (gate : VipsThreadGate) : M unit :=
  fprintf (FmtGate (gate_name gate)) ;;;
  fprintf FmtStart ;;;
  vips_thread_gate_block_save (gate_start gate) ;;;
  fprintf FmtStop ;;;
  vips_thread_gate_block_save (gate_stop gate).

(** The gates of a table in the order of its traversal. *)
Definition g_hash_table_values (tbl : GHashTable) : list VipsThreadGate :=
  (map_to_list (tbl_entries tbl)).*2.

Definition g_hash_table_foreach (tbl : GHashTable)
    (f : VipsThreadGate → M unit) : M unit :=
  foreach f (g_hash_table_values tbl).

Definition g_hash_table_lookup (tbl : GHashTable) (key : string)
  : option VipsThreadGate :=
  tbl_entries tbl !! key.

Definition g_hash_table_insert (tbl : GHashTable) (key : string)
    (value : VipsThreadGate) : GHashTable :=
  HashTable (tbl_addr tbl) (<[key := value]> (tbl_entries tbl)).

Definition g_hash_table_new_full : M GHashTable :=
  a <- g_new ;;
  ret (HashTable a ∅).

Definition g_mutex_lock : M unit := emit MutexLock.
Definition g_mutex_unlock : M unit := emit MutexUnlock.

(** The lock is [vips__global_lock], the stream [vips__thread_fp]. *)
Definition vips_thread_profile_save (profile : VipsThreadProfile) : M unit :=
  g_mutex_lock ;;;
  fprintf (FmtThread (profile_name profile) (profile_addr profile)) ;;;
  g_hash_table_foreach (profile_gates profile)
    vips_thread_profile_save_gate ;;;
  g_mutex_unlock.

Fixpoint vips_thread_gate_block_free (block : VipsThreadGateBlock) : M unit :=
  match blk_prev block with
  | Some prev => vips_thread_gate_block_free prev
  | None => ret tt
  end ;;;
  VIPS_FREE (blk_addr block).

Definition vips_thread_gate_free (gate : VipsThreadGate) : M unit :=
  VIPS_FREEF vips_thread_gate_block_free (Some (gate_start gate)) ;;;
  VIPS_FREEF vips_thread_gate_block_free (Some (gate_stop gate)) ;;;
  VIPS_FREE (gate_addr gate).

(** [g_hash_table_destroy]: the value destroy function on every value,
    then the table itself. *)
Definition g_hash_table_destroy (tbl : GHashTable) : M unit :=
  foreach vips_thread_gate_free (g_hash_table_values tbl) ;;;
  g_free (tbl_addr tbl).

Definition vips_thread_profile_free (profile : VipsThreadProfile) : M unit :=
  fp <- gets vips__thread_fp ;;
  match fp with
  | Some _ => vips_thread_profile_save profile
  | None => ret tt
  end ;;;
  VIPS_FREEF g_hash_table_destroy (Some (profile_gates profile)) ;;;
  VIPS_FREE (profile_addr profile).

Definition fclose (fp : FILE) : M unit := emit Fclose.

Definition vips__thread_profile_stop : M unit :=
  enabled <- gets vips__thread_profile ;;
  if enabled : bool
  then fp <- gets vips__thread_fp ;;
       VIPS_FREEF fclose fp ;;;
       modify (set_fp None)
  else ret tt.

(** [g_private_get] and [g_private_set] on the calling thread [self].  GLib
    documents them for a key made by [G_PRIVATE_INIT] or [g_private_new]:
    the value the thread has set, NULL if it has set none.  For a NULL key
    it documents no result (from 2.32 on it reads through the key), so the
    model gives none: the call ends as [OutsideContract]. *)
Definition g_private_get (self : GThread) : M (option VipsThreadProfile) :=
  key <- gets vips_thread_profile_key ;;
  match key with
  | Some _ => gets (λ s, private_values s !! self)
  | None => outside_contract
  end.

Definition g_private_set (self : GThread) (profile : VipsThreadProfile)
  : M unit :=
  modify (λ s, set_private (<[self := profile]> (private_values s)) s).

(** Modelled from the spec: [vips__file_open_write] is defined elsewhere in
    the library.  [open_write (path, truncate) -> Stream | error] opens the
    log file; whether it can is [log_writable]. *)
Definition vips__file_open_write (path : string) (truncate : bool)
  : M (option FILE) :=
  ok <- gets log_writable ;;
  emit (FileOpenWrite path truncate ok) ;;;
  ret (if ok : bool then Some ProfileLog else None).

Definition recording_message : string :=
  "recording profile in vips-profile.txt" +:+ newline.

(** Both branches of [HAVE_PRIVATE_INIT] leave the key set, with
    [vips_thread_profile_free] as its destroy notify; the [g_private_new]
    branch is the one written out. *)
Definition vips__thread_profile_init : M unit :=
  key <- gets vips_thread_profile_key ;;
  match key with
  | None => modify (set_key (Some ProfileKey))
  | Some _ => ret tt
  end ;;;
  enabled <- gets vips__thread_profile ;;
  if enabled : bool
  then fp <- vips__file_open_write "vips-profile.txt" true ;;
       modify (set_fp fp) ;;;
       match fp with
       | None => vips_error_exit "unable to create profile log"
       | Some _ => ret tt
       end ;;;
       emit (Printf recording_message)
  else ret tt.

(** [g_once (&once, init, NULL)] *)
Definition g_once (init : M unit) : M unit :=
  done <- gets once ;;
  if done : bool
  then ret tt
  else init ;;; modify (set_once true).

Definition vips__thread_profile_attach (self : GThread)
    (thread_name : string) : M unit :=
  g_once vips__thread_profile_init ;;;
  attached <- g_private_get self ;;
  g_assert (match attached with None => true | Some _ => false end) ;;;
  profile <- g_new ;;
  gates <- g_hash_table_new_full ;;
  g_private_set self (Profile profile thread_name gates).

Definition vips_thread_profile_get (self : GThread)
  : M (option VipsThreadProfile) :=
  g_private_get self.

Definition vips_thread_gate_new (gate_name : string) : M VipsThreadGate :=
  gate <- g_new ;;
  start <- g_new0_block ;;
  stop <- g_new0_block ;;
  ret (Gate gate gate_name start stop).

(** ** The clock *)

(** [GTimeVal] as [g_get_current_time] fills it: seconds since the epoch
    and the microseconds within the second. *)
Record GTimeVal : Type := TimeVal { tv_sec : Z; tv_usec : Z }.

(** What the two clocks of GLib read at the moment of a call. *)
Record Clock : Type :=
  MkClock {
    g_get_monotonic_time : Z;
    g_get_current_time : GTimeVal
  }.

Section Build.

(** Whether the build defines [HAVE_MONOTONIC_TIME]. *)
Variable HAVE_MONOTONIC_TIME : bool.

Definition vips_get_time (clk : Clock) : Z :=
  if HAVE_MONOTONIC_TIME
  then g_get_monotonic_time clk
  else tv_usec (g_get_current_time clk).

(** The gate named [gate_name] of the profile, made and inserted when the
    table has none; returned with the table it is now in.  This is
    [if (!(gate = g_hash_table_lookup (..))) { gate = vips_thread_gate_new
    (..); g_hash_table_insert (..); }]. *)
Definition gate_lookup_or_new (gates : GHashTable) (gate_name : string)
  : M (VipsThreadGate * GHashTable) :=
  match g_hash_table_lookup gates gate_name with
  | Some gate => ret (gate, gates)
  | None =>
      gate <- vips_thread_gate_new gate_name ;;
      ret (gate, g_hash_table_insert gates gate_name gate)
  end.

Definition set_gate_start (start : VipsThreadGateBlock)
    (gate : VipsThreadGate) : VipsThreadGate :=
  Gate (gate_addr gate) (gate_name gate) start (gate_stop gate).

Definition set_gate_stop (stop : VipsThreadGateBlock)
    (gate : VipsThreadGate) : VipsThreadGate :=
  Gate (gate_addr gate) (gate_name gate) (gate_start gate) stop.

(** The gate is changed in place in C; here the changed gate is put back
    into the table under the key it was found under, and the profile back
    into the thread's slot. *)
Definition gate_write_back (self : GThread) (profile : VipsThreadProfile)
    (gates : GHashTable) (key : string) (gate : VipsThreadGate) : M unit :=
  g_private_set self
    (Profile (profile_addr profile) (profile_name profile)
       (g_hash_table_insert gates key gate)).

Definition vips__thread_gate_start (self : GThread) (clk : Clock)
    (gate_name : string) : M unit :=
  profile <- vips_thread_profile_get self ;;
  match profile with
  | Some profile =>
      found <- gate_lookup_or_new (profile_gates profile) gate_name ;;
      let gate := found.1 in
      start <- gate_block_record (gate_start gate) (vips_get_time clk) ;;
      gate_write_back self profile found.2 gate_name
        (set_gate_start start gate)
  | None => ret tt
  end.

Definition vips__thread_gate_stop (self : GThread) (clk : Clock)
    (gate_name : string) : M unit :=
  profile <- vips_thread_profile_get self ;;
  match profile with
  | Some profile =>
      found <- gate_lookup_or_new (profile_gates profile) gate_name ;;
      let gate := found.1 in
      stop <- gate_block_record (gate_stop gate) (vips_get_time clk) ;;
      gate_write_back self profile found.2 gate_name
        (set_gate_stop stop gate)
  | None => ret tt
  end.

(** GLib at the exit of thread [self]: for each key that was made, the
    destroy notify of the key runs on the thread's value when that is not
    NULL, the slot being reset first.  With no key made there is nothing to
    run. *)
Definition g_thread_exit (self : GThread) : M unit :=
  key <- gets vips_thread_profile_key ;;
  value <- gets (λ s, private_values s !! self) ;;
  match key, value with
  | Some _, Some profile =>
      modify (λ s, set_private (delete self (private_values s)) s) ;;;
      vips_thread_profile_free profile
  | _, _ => ret tt
  end.

(** ** Runs of the process *)

Inductive call : Type :=
  | Attach (self : GThread) (thread_name : string)
  | GateStart (self : GThread) (clk : Clock) (gate_name : string)
  | GateStop (self : GThread) (clk : Clock) (gate_name : string)
  | ThreadExit (self : GThread)
  | ProfileStop.

Definition step (c : call) : M unit :=
  match c with
  | Attach self thread_name => vips__thread_profile_attach self thread_name
  | GateStart self clk gate_name => vips__thread_gate_start self clk gate_name
  | GateStop self clk gate_name => vips__thread_gate_stop self clk gate_name
  | ThreadExit self => g_thread_exit self
  | ProfileStop => vips__thread_profile_stop
  end.

Definition run (cs : list call) : M unit := foreach step cs.

(** A process before its first call into the file. *)
Definition initial (s : Process) : Prop :=
  vips_thread_profile_key s = None ∧ vips__thread_fp s = None ∧
  once s = false ∧ private_values s = ∅ ∧ effects s = [].

End Build.

(** ** What a chain holds, read off the data *)

Local Open Scope Z_scope.

(** The filled slots of one block, oldest first. *)
Definition block_entries (b : VipsThreadGateBlock) : list Z :=
  take (Z.to_nat (blk_i b)) (blk_time b).

(** The blocks of a chain, the current one first. *)
Fixpoint chain_blocks (b : VipsThreadGateBlock) : list VipsThreadGateBlock :=
  b :: match blk_prev b with
       | Some p => chain_blocks p
       | None => []
       end.

(** Every timestamp of a chain in the order of recording. *)
Fixpoint chain_entries (b : VipsThreadGateBlock) : list Z :=
  match blk_prev b with
  | Some p => chain_entries p
  | None => []
  end ++ block_entries b.

(** The [fprintf] calls that saving a chain amounts to. *)
Fixpoint block_save_calls (b : VipsThreadGateBlock) : list fprintf_call :=
  (FmtTime <$> reverse (block_entries b)) ++
  FmtNewline ::
  match blk_prev b with
  | Some p => block_save_calls p
  | None => []
  end.

(** The timestamps among a sequence of [fprintf] calls. *)
Definition fprintf_time (c : fprintf_call) : option Z :=
  match c with
  | FmtTime t => Some t
  | _ => None
  end.

Definition fprintf_times (cs : list fprintf_call) : list Z :=
  omap fprintf_time cs.

(** A chain as the code keeps it: every fill count within the array, every
    array of full size, every block behind the current one full, and a
    current block with a block behind it not empty. *)
Fixpoint block_wf (b : VipsThreadGateBlock) : Prop :=
  0 ≤ blk_i b ≤ VIPS_GATE_SIZE ∧
  length (blk_time b) = Z.to_nat VIPS_GATE_SIZE ∧
  match blk_prev b with
  | Some p => 1 ≤ blk_i b ∧ blk_i p = VIPS_GATE_SIZE ∧ block_wf p
  | None => True
  end.

(** The state after [g_new] and the address it returns. *)
Definition g_new_addr (s : Process) : addr := fresh (allocated s).

Definition g_new_state (s : Process) : Process :=
  add_effects [Malloc (g_new_addr s)]
    (set_allocated ({[g_new_addr s]} ∪ allocated s) s).

(** The state after freeing the addresses [l] in order. *)
Definition released (l : list addr) (s : Process) : Process :=
  add_effects (Free <$> l) (set_allocated (allocated s ∖ list_to_set l) s).

(** The block that [gate_block_record] leaves, [a] being the address a new
    block would get. *)
Definition block_recorded (a : addr) (b : VipsThreadGateBlock) (t : Z)
  : VipsThreadGateBlock :=
  if decide (VIPS_GATE_SIZE ≤ blk_i b)
  then Block a (Some b) (<[0%nat := t]> zeroed_times) 1
  else Block (blk_addr b) (blk_prev b)
         (<[Z.to_nat (blk_i b) := t]> (blk_time b)) (blk_i b + 1).

(** The addresses of a chain, of a gate, of a table and of a profile, in
    the order in which teardown frees them. *)
Fixpoint block_addrs (b : VipsThreadGateBlock) : list addr :=
  match blk_prev b with
  | Some p => block_addrs p
  | None => []
  end ++ [blk_addr b].

Definition gate_addrs (g : VipsThreadGate) : list addr :=
  block_addrs (gate_start g) ++ block_addrs (gate_stop g) ++ [gate_addr g].

Definition table_addrs (tbl : GHashTable) : list addr :=
  (g_hash_table_values tbl ≫= gate_addrs) ++ [tbl_addr tbl].

Definition profile_addrs (p : VipsThreadProfile) : list addr :=
  table_addrs (profile_gates p) ++ [profile_addr p].

(** Every address held by the profile of some thread. *)
Definition owned_by (pv : gmap GThread VipsThreadProfile) : list addr :=
  (map_to_list pv).*2 ≫= profile_addrs.

Definition owned (s : Process) : list addr := owned_by (private_values s).

(** The [fprintf] calls of one gate and of a whole profile. *)
Definition gate_save_calls (g : VipsThreadGate) : list fprintf_call :=
  FmtGate (gate_name g) :: FmtStart :: block_save_calls (gate_start g) ++
  FmtStop :: block_save_calls (gate_stop g).

Definition profile_save_calls (p : VipsThreadProfile) : list fprintf_call :=
  FmtThread (profile_name p) (profile_addr p) ::
  (g_hash_table_values (profile_gates p) ≫= gate_save_calls).

(** The state after allocating the addresses [l] in order. *)
Definition allocated_state (l : list addr) (s : Process) : Process :=
  add_effects (Malloc <$> l) (set_allocated (list_to_set l ∪ allocated s) s).

(** A computation that only adds the effects [es], and one that only
    frees the addresses [l], which must be live and distinct. *)
Definition emits (m : M unit) (es : list effect) : Prop :=
  ∀ s, m s = Ok (tt, add_effects es s).

Definition frees (m : M unit) (l : list addr) : Prop :=
  ∀ s, NoDup l → (∀ a, a ∈ l → a ∈ allocated s) →
       m s = Ok (tt, released l s).

(** Addresses that [g_new] can hand out next, one after the other. *)
Definition fresh_for (news : list addr) (s : Process) : Prop :=
  NoDup news ∧ ∀ a, a ∈ news → a ∉ allocated s.

(** What teardown writes to the log, [fp] being [vips__thread_fp]. *)
Definition teardown_writes (fp : option FILE) (p : VipsThreadProfile)
  : list effect :=
  match fp with
  | Some _ =>
      [MutexLock] ++ (Fprintf <$> profile_save_calls p) ++ [MutexUnlock]
  | None => []
  end.

(** ** What a run has recorded, read off the calls *)

(** A gate and a profile as the code keeps them. *)
Definition gate_wf (name : string) (g : VipsThreadGate) : Prop :=
  gate_name g = name ∧ block_wf (gate_start g) ∧ block_wf (gate_stop g).

Definition profile_wf (p : VipsThreadProfile) : Prop :=
  map_Forall gate_wf (tbl_entries (profile_gates p)).

(** The start and stop times a gate holds, each in the order of recording;
    the gates of a profile by name; the profiles of a process by thread. *)
Definition gate_view (g : VipsThreadGate) : list Z * list Z :=
  (chain_entries (gate_start g), chain_entries (gate_stop g)).

Definition profile_view (p : VipsThreadProfile)
  : gmap string (list Z * list Z) :=
  gate_view <$> tbl_entries (profile_gates p).

Definition process_view (s : Process)
  : gmap GThread (gmap string (list Z * list Z)) :=
  profile_view <$> private_values s.

(** The same read off the calls made so far: a thread has a record from
    its attach to its exit, and a start or stop call on an attached thread
    adds its timestamp to the times of the gate it names. *)
Definition times_of (name : string) (gates : gmap string (list Z * list Z))
  : list Z * list Z :=
  default ([], []) (gates !! name).

Definition log_start (t : Z) (name : string)
    (gates : gmap string (list Z * list Z)) : gmap string (list Z * list Z) :=
  <[name := ((times_of name gates).1 ++ [t], (times_of name gates).2)]> gates.

Definition log_stop (t : Z) (name : string)
    (gates : gmap string (list Z * list Z)) : gmap string (list Z * list Z) :=
  <[name := ((times_of name gates).1, (times_of name gates).2 ++ [t])]> gates.

Section History.

Variable HAVE_MONOTONIC_TIME : bool.

Definition log_call (h : gmap GThread (gmap string (list Z * list Z)))
    (c : call) : gmap GThread (gmap string (list Z * list Z)) :=
  match c with
  | Attach self _ => <[self := ∅]> h
  | GateStart self clk name =>
      match h !! self with
      | Some gates =>
          <[self := log_start (vips_get_time HAVE_MONOTONIC_TIME clk)
                      name gates]> h
      | None => h
      end
  | GateStop self clk name =>
      match h !! self with
      | Some gates =>
          <[self := log_stop (vips_get_time HAVE_MONOTONIC_TIME clk)
                      name gates]> h
      | None => h
      end
  | ThreadExit self => delete self h
  | ProfileStop => h
  end.

Definition logged (cs : list call)
  : gmap GThread (gmap string (list Z * list Z)) :=
  foldl log_call ∅ cs.

End History.

(** Counting effects of one kind in a trace. *)
Definition is_open (e : effect) : bool :=
  match e with FileOpenWrite _ _ _ => true | _ => false end.

Definition is_close (e : effect) : bool :=
  match e with Fclose => true | _ => false end.

Definition is_fprintf (e : effect) : bool :=
  match e with Fprintf _ => true | _ => false end.

Definition count (f : effect → bool) (es : list effect) : nat :=
  length (filter (λ e, f e = true) es).

(** What holds of the statics around the log and of the trace. *)
Record sink_inv (s : Process) : Prop :=
  SinkInv {
    sink_key : once s = true → vips_thread_profile_key s = Some ProfileKey;
    sink_fp : is_Some (vips__thread_fp s) →
      vips__thread_profile s = true ∧ once s = true ∧
      count is_close (effects s) = 0%nat;
    sink_opens :
      count is_open (effects s) =
        if vips__thread_profile s && once s then 1%nat else 0%nat;
    sink_open_mode :
      Forall (λ e, is_open e = true →
                   e = FileOpenWrite "vips-profile.txt" true true)
        (effects s);
    sink_closes :
      (count is_close (effects s) ≤ count is_open (effects s))%nat;
    sink_disabled :
      vips__thread_profile s = false → count is_fprintf (effects s) = 0%nat
  }.

(** What holds of the memory the profiles occupy. *)
Record memory_inv (s : Process) : Prop :=
  MemoryInv {
    mem_nodup : NoDup (owned s);
    mem_live : ∀ a, a ∈ owned s → a ∈ allocated s
  }.

Definition is_attach (c : call) : Prop :=
  match c with
  | Attach _ _ => True
  | _ => False
  end.

(** What holds of the process after the calls [cs]. *)
Record process_inv (HAVE_MONOTONIC_TIME : bool) (cs : list call)
    (s : Process) : Prop :=
  ProcessInv {
    inv_sink : sink_inv s;
    inv_memory : memory_inv s;
    inv_attached : ∀ self p,
      private_values s !! self = Some p → once s = true;
    inv_wf : ∀ self p, private_values s !! self = Some p → profile_wf p;
    inv_logged : process_view s = logged HAVE_MONOTONIC_TIME cs
  }.

(** An effect that neither opens nor closes the log, and one that does not
    write to it either. *)
Definition leaves_log (e : effect) : Prop :=
  is_open e = false ∧ is_close e = false.

Definition silent (e : effect) : Prop :=
  leaves_log e ∧ is_fprintf e = false.

(** The state that [g_once (&once, vips__thread_profile_init, NULL)] leaves
    when it returns. *)
Definition once_state (s : Process) : Process :=
  if once s then s
  else set_once true
         (if vips__thread_profile s
          then add_effects
                 [FileOpenWrite "vips-profile.txt" true true;
                  Printf recording_message]
                 (set_fp (Some ProfileLog) (set_key (Some ProfileKey) s))
          else set_key (Some ProfileKey) s).

(** The profile that an attach installs and the state it leaves, [s] being
    the state after the one-time initialisation. *)
Definition attached_profile (thread_name : string) (s : Process)
  : VipsThreadProfile :=
  Profile (g_new_addr s) thread_name
    (HashTable (g_new_addr (g_new_state s)) ∅).

Definition attached_state (self : GThread) (thread_name : string)
    (s : Process) : Process :=
  set_private (<[self := attached_profile thread_name s]> (private_values s))
    (allocated_state [g_new_addr s; g_new_addr (g_new_state s)] s).

(** A start or stop call of thread [self]. *)
Definition gate_call_of (self : GThread) (c : call) : Prop :=
  match c with
  | GateStart self' _ _ | GateStop self' _ _ => self' = self
  | _ => False
  end.


(** A process that has not called into the file yet and holds no memory. *)
Definition new_process (enabled writable : bool) : Process :=
  MkProcess enabled None None false ∅ ∅ writable [].

(** A run to try the statements on: one thread attaches and records one
    start and one stop on one gate, with the log enabled and writable. *)
Definition demo_clock (t : Z) : Clock := MkClock t (TimeVal 0 t).

Definition demo_calls : list call :=
  [Attach 7%nat "worker-1";
   GateStart 7%nat (demo_clock 100) "decode";
   GateStop 7%nat (demo_clock 140) "decode"].

Definition demo_state : Process :=
  match run true demo_calls (new_process true true) with
  | Ok (_, s) => s
  | _ => new_process true true
  end.

Definition demo_profile : VipsThreadProfile :=
  default (Profile 1%positive "none" (HashTable 1%positive ∅))
    (private_values demo_state !! 7%nat).

(** The same run followed by the stop call, which closes the log. *)
Definition demo_stopped : Process :=
  match run true (demo_calls ++ [ProfileStop]) (new_process true true) with
  | Ok (_, s) => s
  | _ => new_process true true
  end.

(** The text that the [fprintf] calls of a trace put into the log.  How
    [%p] prints a pointer is up to the C library; here it is the address
    in decimal. *)
Definition render_call (c : fprintf_call) : string :=
  match c with
  | FmtTime t => pretty t +:+ " "
  | FmtNewline => newline
  | FmtGate name => "gate: " +:+ name +:+ newline
  | FmtStart => "start:" +:+ newline
  | FmtStop => "stop:" +:+ newline
  | FmtThread name p =>
      "thread: " +:+ name +:+ " (" +:+ pretty (Npos p) +:+ ")" +:+ newline
  end.

Fixpoint log_text (es : list effect) : string :=
  match es with
  | [] => EmptyString
  | Fprintf c :: es' => render_call c +:+ log_text es'
  | _ :: es' => log_text es'
  end.

(** The scenario of the design notes: "worker-1" enters "decode" at 100,
    leaves at 140, enters at 200, leaves at 260 and exits. *)
Definition scenario_calls : list call :=
  [Attach 7%nat "worker-1";
   GateStart 7%nat (demo_clock 100) "decode";
   GateStop 7%nat (demo_clock 140) "decode";
   GateStart 7%nat (demo_clock 200) "decode";
   GateStop 7%nat (demo_clock 260) "decode";
   ThreadExit 7%nat].

Definition scenario_text : string :=
  "thread: worker-1 (1)" +:+ newline +:+
  "gate: decode" +:+ newline +:+
  "start:" +:+ newline +:+
  "200 100 " +:+ newline +:+
  "stop:" +:+ newline +:+
  "260 140 " +:+ newline.

(** ** Notions for the further properties *)

(** The thread a call is made on; the stop call belongs to the process. *)
Definition call_thread (c : call) : option GThread :=
  match c with
  | Attach self _ | GateStart self _ _ | GateStop self _ _
  | ThreadExit self => Some self
  | ProfileStop => None
  end.

(** The lines of a saved chain, read off the recorded timestamps alone:
    with [older] blocks behind the current one, the current block holds
    what comes after the first [older * VIPS_GATE_SIZE] timestamps. *)
Fixpoint chunk_lines (older : nat) (entries : list Z) : list fprintf_call :=
  match older with
  | O => (FmtTime <$> reverse entries) ++ [FmtNewline]
  | S k =>
      (FmtTime <$>
         reverse (drop (S k * Z.to_nat VIPS_GATE_SIZE) entries)) ++
      FmtNewline ::
      chunk_lines k (take (S k * Z.to_nat VIPS_GATE_SIZE) entries)
  end.

(** The number of blocks behind the current one after [n] recordings. *)
Definition older_blocks (n : nat) : nat := (n - 1) / Z.to_nat VIPS_GATE_SIZE.

(** Reading a trace against the log and the lock.  The state is whether
    the log is open and whether the lock is held: the log is opened only
    while not open and closed only while open and not under the lock,
    [fprintf] needs the log open and the lock held, and the lock is taken
    only while free and released only while held. *)
Fixpoint trace_scan (st : bool * bool) (es : list effect)
  : option (bool * bool) :=
  match es with
  | [] => Some st
  | e :: es' =>
      match e, st with
      | FileOpenWrite _ _ opened, (false, locked) =>
          trace_scan (opened, locked) es'
      | Fprintf _, (true, true) => trace_scan st es'
      | MutexLock, (open, false) => trace_scan (open, true) es'
      | MutexUnlock, (open, true) => trace_scan (open, false) es'
      | Fclose, (true, false) => trace_scan (false, false) es'
      | (Malloc _ | Free _ | Printf _), _ => trace_scan st es'
      | _, _ => None
      end
  end.

Definition is_open_stream (fp : option FILE) : bool :=
  match fp with Some _ => true | None => false end.

(** The effects on the heap. *)
Definition is_memory (e : effect) : Prop :=
  match e with
  | Malloc _ | Free _ => True
  | _ => False
  end.

(** The allocations a start or stop call on an attached thread makes, by
    what it finds under the name: [chain] picks the chain it records in. *)
Definition gate_call_allocations (chain : VipsThreadGate → VipsThreadGateBlock)
    (found : option VipsThreadGate) : nat :=
  match found with
  | None => 3%nat
  | Some g =>
      if decide (VIPS_GATE_SIZE ≤ blk_i (chain g))%Z then 1%nat else 0%nat
  end.

(** Runs that go on from [demo_state]: a second thread that attaches and
    records while the first is there, the stop call followed by the exit of
    the first thread, and the whole life of a second thread. *)
Definition demo_after (cs : list call) : Process :=
  match run true cs demo_state with
  | Ok (_, s) => s
  | _ => demo_state
  end.

Definition demo_second_calls : list call :=
  [Attach 9%nat "worker-2";
   GateStart 9%nat (demo_clock 150) "encode";
   ThreadExit 9%nat].

Definition demo_late_exit : list call := [ThreadExit 7%nat].

Definition demo_gate_calls : list call :=
  [GateStart 9%nat (demo_clock 150) "encode";
   GateStop 9%nat (demo_clock 190) "encode"].

(** The scenario followed by the stop call of the process: its trace has
    the dump of a thread under the lock and the close of the log. *)
Definition scenario_stopped : Process :=
  match run true (scenario_calls ++ [ProfileStop]) (new_process true true) with
  | Ok (_, s) => s
  | _ => new_process true true
  end.

Definition demo_gate : VipsThreadGate :=
  default (Gate 1%positive "none" (Block 1%positive None [] 0)
             (Block 1%positive None [] 0))
    (tbl_entries (profile_gates demo_profile) !! "decode").

(** * Properties *)

(** The monad operations unfold under [simpl] once they meet a state. *)
Arguments ret {A} a s /.
Arguments bind {A B} m k s /.
Arguments gets {A} f s /.
Arguments modify f s /.
Arguments emit e s /.
Arguments fprintf c s /.
Arguments undefined {A} s /.
Arguments outside_contract {A} s /.
Arguments g_assert b s /.
Arguments vips_error_exit msg s /.
Arguments zeroed_times : simpl never.
Arguments VIPS_GATE_SIZE : simpl never.

Lemma length_zeroed_times : length zeroed_times = Z.to_nat VIPS_GATE_SIZE.
Proof. apply length_replicate. Qed.

Opaque zeroed_times.

Lemma array_store_spec a idx v s :
  0 ≤ idx < Z.of_nat (length a) →
  array_store a idx v s = Ok (<[Z.to_nat idx := v]> a, s).
Proof. intros H. unfold array_store. by rewrite decide_True. Qed.

(** ** Induction over a chain *)

Lemma block_chain_ind (P : VipsThreadGateBlock → Prop) :
  (∀ a t i, P (Block a None t i)) →
  (∀ a p t i, P p → P (Block a (Some p) t i)) →
  ∀ b, P b.
Proof.
  intros Hlast Hlink. fix IH 1. intros [a [p|] t i].
  - apply Hlink, IH.
  - apply Hlast.
Qed.

(** ** The state after a sequence of effects *)

Lemma add_effects_nil s : add_effects [] s = s.
Proof. destruct s. unfold add_effects. simpl. by rewrite app_nil_r. Qed.

Lemma add_effects_add es1 es2 s :
  add_effects es2 (add_effects es1 s) = add_effects (es1 ++ es2) s.
Proof. unfold add_effects. simpl. by rewrite app_assoc. Qed.

Lemma released_nil s : released [] s = s.
Proof.
  destruct s. unfold released, add_effects, set_allocated. simpl.
  rewrite app_nil_r. f_equal. set_solver.
Qed.

Lemma released_app l1 l2 s :
  released l2 (released l1 s) = released (l1 ++ l2) s.
Proof.
  unfold released, add_effects, set_allocated. simpl.
  rewrite fmap_app, app_assoc. f_equal.
  rewrite list_to_set_app_L. set_solver.
Qed.

Lemma g_free_released a s :
  a ∈ allocated s → g_free a s = Ok (tt, released [a] s).
Proof.
  intros Ha. unfold g_free. rewrite decide_True by done.
  unfold released. simpl. do 4 f_equal. set_solver.
Qed.

(** ** Saving a chain *)

Lemma save_times_spec time n s :
  (n ≤ length time)%nat →
  save_times time n s =
    Ok (tt, add_effects (Fprintf <$> (FmtTime <$> reverse (take n time))) s).
Proof.
  revert s. induction n as [|k IH]; intros s Hn.
  - simpl. by rewrite add_effects_nil.
  - destruct (lookup_lt_is_Some_2 time k) as [x Hx]; [lia|].
    rewrite (take_S_r _ _ _ Hx), reverse_snoc. simpl.
    unfold bind, array_load. rewrite decide_True by lia.
    rewrite Nat2Z.id, Hx. simpl. rewrite IH by lia.
    by rewrite add_effects_add.
Qed.

Lemma block_save_spec b : ∀ s,
  block_wf b →
  vips_thread_gate_block_save b s =
    Ok (tt, add_effects (Fprintf <$> block_save_calls b) s).
Proof.
  induction b as [a t i|a p t i IH] using block_chain_ind;
    intros s (Hi & Hlen & Hp); simpl in *; [|destruct Hp as (_ & _ & Hp)].
  - unfold bind. rewrite save_times_spec by (unfold VIPS_GATE_SIZE in *; lia).
    simpl. rewrite add_effects_add. unfold block_entries. simpl.
    by rewrite fmap_app.
  - unfold bind. rewrite save_times_spec by (unfold VIPS_GATE_SIZE in *; lia).
    simpl. rewrite IH by done. rewrite !add_effects_add.
    unfold block_entries. simpl. by rewrite fmap_app.
Qed.


Lemma fprintf_times_fmap l : fprintf_times (FmtTime <$> l) = l.
Proof.
  unfold fprintf_times. induction l as [|x l IH]; [done|].
  simpl. f_equal. exact IH.
Qed.

Lemma fprintf_times_app l1 l2 :
  fprintf_times (l1 ++ l2) = fprintf_times l1 ++ fprintf_times l2.
Proof. apply omap_app. Qed.

Lemma fprintf_times_block_save b :
  fprintf_times (block_save_calls b) = reverse (chain_entries b).
Proof.
  induction b as [a t i|a p t i IH] using block_chain_ind; simpl.
  - rewrite fprintf_times_app, fprintf_times_fmap. simpl.
    by rewrite app_nil_r.
  - rewrite fprintf_times_app, fprintf_times_fmap. simpl.
    by rewrite IH, reverse_app.
Qed.

(** ** Recording into a chain *)

Lemma block_wf_unfold b :
  block_wf b ↔
    0 ≤ blk_i b ≤ VIPS_GATE_SIZE ∧
    length (blk_time b) = Z.to_nat VIPS_GATE_SIZE ∧
    match blk_prev b with
    | Some p => 1 ≤ blk_i b ∧ blk_i p = VIPS_GATE_SIZE ∧ block_wf p
    | None => True
    end.
Proof. by destruct b. Qed.

Lemma g_new_spec s : g_new s = Ok (g_new_addr s, g_new_state s).
Proof. done. Qed.

Lemma g_new0_block_spec s :
  g_new0_block s =
    Ok (Block (g_new_addr s) None zeroed_times 0, g_new_state s).
Proof. done. Qed.

Lemma gate_block_record_spec b t s :
  block_wf b →
  gate_block_record b t s =
    Ok (block_recorded (g_new_addr s) b t,
        if decide (VIPS_GATE_SIZE ≤ blk_i b) then g_new_state s else s).
Proof.
  intros (Hi & Hlen & _)%block_wf_unfold.
  unfold gate_block_record, block_recorded, bind.
  destruct (decide (VIPS_GATE_SIZE ≤ blk_i b)) as [Hfull|Hroom].
  - unfold vips_thread_gate_block_add, bind. rewrite g_new0_block_spec.
    simpl. rewrite array_store_spec; [done|].
    rewrite length_zeroed_times. unfold VIPS_GATE_SIZE. lia.
  - simpl. rewrite array_store_spec; [done|].
    rewrite Hlen. unfold VIPS_GATE_SIZE in *. lia.
Qed.

Lemma block_recorded_wf a b t : block_wf b → block_wf (block_recorded a b t).
Proof.
  intros Hwf. pose proof Hwf as (Hi & Hlen & Hp)%block_wf_unfold.
  unfold block_recorded.
  destruct (decide (VIPS_GATE_SIZE ≤ blk_i b)); simpl.
  - rewrite length_insert, length_zeroed_times.
    repeat split; try done; unfold VIPS_GATE_SIZE in *; lia.
  - rewrite length_insert. repeat split; [lia|lia|done|].
    destruct (blk_prev b); [|done]. repeat split; [lia|apply Hp..].
Qed.

Lemma block_entries_store a p tm i t :
  0 ≤ i < Z.of_nat (length tm) →
  block_entries (Block a p (<[Z.to_nat i := t]> tm) (i + 1)) =
    block_entries (Block a p tm i) ++ [t].
Proof.
  intros Hi. unfold block_entries. simpl.
  replace (Z.to_nat (i + 1)) with (S (Z.to_nat i)) by lia.
  rewrite (take_S_r _ _ t).
  - by rewrite take_insert_ge.
  - apply list_lookup_insert_eq. lia.
Qed.

Lemma block_recorded_entries a b t :
  block_wf b →
  chain_entries (block_recorded a b t) = chain_entries b ++ [t].
Proof.
  intros (Hi & Hlen & _)%block_wf_unfold. unfold block_recorded.
  destruct (decide (VIPS_GATE_SIZE ≤ blk_i b)) as [Hfull|Hroom].
  - done.
  - destruct b as [ab pb tb ib]. simpl in *. rewrite <-app_assoc. f_equal.
    apply block_entries_store. unfold VIPS_GATE_SIZE in *. lia.
Qed.


Lemma g_new0_block_wf a :
  block_wf (Block a None zeroed_times 0).
Proof. simpl. rewrite length_zeroed_times. unfold VIPS_GATE_SIZE. done. Qed.


(** ** The order of a saved chain *)



(** ** Growth of a chain by one block *)





(** ** Computations that only write, and computations that only free *)

Lemma fmap_list_bind {A B C} (f : B → C) (g : A → list B) (l : list A) :
  f <$> (l ≫= g) = l ≫= (λ x, f <$> g x).
Proof.
  induction l as [|x l IH]; [done|].
  rewrite !bind_cons, fmap_app. by f_equal.
Qed.

Lemma emits_ret : emits (ret tt) [].
Proof. intros s. simpl. by rewrite add_effects_nil. Qed.

Lemma emits_emit e : emits (emit e) [e].
Proof. by intros s. Qed.

Lemma emits_seq m1 m2 es1 es2 :
  emits m1 es1 → emits m2 es2 → emits (m1 ;;; m2) (es1 ++ es2).
Proof.
  intros H1 H2 s. simpl. rewrite H1, H2. by rewrite add_effects_add.
Qed.

Lemma emits_foreach {A} (f : A → M unit) (g : A → list effect) l :
  Forall (λ x, emits (f x) (g x)) l → emits (foreach f l) (l ≫= g).
Proof.
  induction 1 as [|x l Hx _ IH]; simpl.
  - apply emits_ret.
  - by apply emits_seq.
Qed.

Lemma emits_block_save b :
  block_wf b →
  emits (vips_thread_gate_block_save b) (Fprintf <$> block_save_calls b).
Proof. intros Hwf s. by apply block_save_spec. Qed.

Lemma emits_save_gate name g :
  gate_wf name g →
  emits (vips_thread_profile_save_gate g) (Fprintf <$> gate_save_calls g).
Proof.
  intros (_ & Hstart & Hstop). unfold vips_thread_profile_save_gate.
  unfold gate_save_calls. rewrite !fmap_cons, fmap_app, fmap_cons.
  apply (emits_seq _ _ [_]); [apply emits_emit|].
  apply (emits_seq _ _ [_]); [apply emits_emit|].
  apply emits_seq; [by apply emits_block_save|].
  apply (emits_seq _ _ [_]); [apply emits_emit|].
  by apply emits_block_save.
Qed.

Lemma profile_wf_values p :
  profile_wf p →
  Forall (λ g, gate_wf (gate_name g) g) (g_hash_table_values (profile_gates p)).
Proof.
  intros Hwf. apply Forall_forall. intros g Hg.
  unfold g_hash_table_values in Hg.
  apply list_elem_of_fmap in Hg as ([name g'] & -> & Hin).
  apply elem_of_map_to_list in Hin. simpl.
  pose proof (Hwf name g' Hin) as Hg. pose proof Hg as (-> & _). done.
Qed.

Lemma emits_profile_save p :
  profile_wf p →
  emits (vips_thread_profile_save p)
    ([MutexLock] ++ (Fprintf <$> profile_save_calls p) ++ [MutexUnlock]).
Proof.
  intros Hwf. unfold vips_thread_profile_save, profile_save_calls.
  apply emits_seq; [apply emits_emit|].
  rewrite fmap_cons, <-app_comm_cons.
  apply (emits_seq _ _ [_]); [apply emits_emit|].
  apply emits_seq; [|apply emits_emit].
  unfold g_hash_table_foreach. rewrite fmap_list_bind.
  apply emits_foreach. eapply Forall_impl; [by apply profile_wf_values|].
  intros g Hg. by apply (emits_save_gate (gate_name g)).
Qed.

Lemma frees_ret : frees (ret tt) [].
Proof. intros s _ _. simpl. by rewrite released_nil. Qed.

Lemma frees_g_free a : frees (g_free a) [a].
Proof.
  intros s _ Hlive. apply g_free_released, Hlive. by apply list_elem_of_singleton.
Qed.

Lemma frees_seq m1 m2 l1 l2 :
  frees m1 l1 → frees m2 l2 → frees (m1 ;;; m2) (l1 ++ l2).
Proof.
  intros H1 H2 s Hnodup Hlive. apply NoDup_app in Hnodup as (Hn1 & Hdisj & Hn2).
  simpl. rewrite H1; [|done|].
  - rewrite H2; [by rewrite released_app|done|].
    intros a Ha. unfold released. simpl.
    apply elem_of_difference. split.
    + apply Hlive, elem_of_app. by right.
    + rewrite elem_of_list_to_set. intros Ha1. by apply (Hdisj a).
  - intros a Ha. apply Hlive, elem_of_app. by left.
Qed.

Lemma frees_foreach {A} (f : A → M unit) (g : A → list addr) l :
  (∀ x, frees (f x) (g x)) → frees (foreach f l) (l ≫= g).
Proof.
  intros Hf. induction l as [|x l IH]; simpl.
  - apply frees_ret.
  - by apply frees_seq.
Qed.

Lemma frees_block_free b :
  frees (vips_thread_gate_block_free b) (block_addrs b).
Proof.
  induction b as [a t i|a p t i IH] using block_chain_ind; simpl.
  - apply (frees_seq _ _ [] [a]); [apply frees_ret|apply frees_g_free].
  - apply frees_seq; [exact IH|apply frees_g_free].
Qed.

Lemma frees_gate_free g : frees (vips_thread_gate_free g) (gate_addrs g).
Proof.
  unfold vips_thread_gate_free, gate_addrs.
  apply frees_seq; [apply frees_block_free|].
  apply frees_seq; [apply frees_block_free|apply frees_g_free].
Qed.

Lemma frees_hash_table_destroy tbl :
  frees (g_hash_table_destroy tbl) (table_addrs tbl).
Proof.
  unfold g_hash_table_destroy, table_addrs.
  apply frees_seq; [|apply frees_g_free].
  apply frees_foreach, frees_gate_free.
Qed.

Lemma frees_profile p :
  frees (VIPS_FREEF g_hash_table_destroy (Some (profile_gates p)) ;;;
         VIPS_FREE (profile_addr p))
    (profile_addrs p).
Proof.
  unfold profile_addrs.
  apply frees_seq; [apply frees_hash_table_destroy|apply frees_g_free].
Qed.

(** ** Tearing a profile down *)

Lemma profile_free_spec p s :
  profile_wf p →
  NoDup (profile_addrs p) →
  (∀ a, a ∈ profile_addrs p → a ∈ allocated s) →
  vips_thread_profile_free p s =
    Ok (tt, released (profile_addrs p)
              (add_effects (teardown_writes (vips__thread_fp s) p) s)).
Proof.
  intros Hwf Hnodup Hlive. unfold vips_thread_profile_free.
  simpl. destruct (vips__thread_fp s) as [fp|] eqn:Hfp; simpl.
  - rewrite emits_profile_save by done.
    apply (frees_profile p); [done|]. intros a Ha. simpl. by apply Hlive.
  - rewrite add_effects_nil. by apply (frees_profile p).
Qed.

Lemma g_thread_exit_spec self p s :
  vips_thread_profile_key s = Some ProfileKey →
  private_values s !! self = Some p →
  g_thread_exit self s =
    vips_thread_profile_free p
      (set_private (delete self (private_values s)) s).
Proof.
  intros Hkey Hp. unfold g_thread_exit, g_private_get. simpl.
  rewrite Hkey. simpl. by rewrite Hp.
Qed.

(** ** Allocation *)

Lemma allocated_state_nil s : allocated_state [] s = s.
Proof.
  destruct s. unfold allocated_state, add_effects, set_allocated. simpl.
  rewrite app_nil_r. f_equal. set_solver.
Qed.

Lemma allocated_state_app l1 l2 s :
  allocated_state l2 (allocated_state l1 s) = allocated_state (l1 ++ l2) s.
Proof.
  unfold allocated_state, add_effects, set_allocated. simpl.
  rewrite fmap_app, app_assoc. f_equal.
  rewrite list_to_set_app_L. set_solver.
Qed.

Lemma g_new_state_allocated s :
  g_new_state s = allocated_state [g_new_addr s] s.
Proof.
  unfold g_new_state, allocated_state, add_effects, set_allocated. simpl.
  f_equal. set_solver.
Qed.

Lemma fresh_for_nil s : fresh_for [] s.
Proof. split; [constructor|]. intros a Ha. by apply elem_of_nil in Ha. Qed.

Lemma fresh_for_g_new s : fresh_for [g_new_addr s] s.
Proof.
  split; [apply NoDup_singleton|].
  intros a ->%list_elem_of_singleton. unfold g_new_addr. apply is_fresh.
Qed.

Lemma fresh_for_app l1 l2 s :
  fresh_for l1 s → fresh_for l2 (allocated_state l1 s) →
  fresh_for (l1 ++ l2) s.
Proof.
  intros (Hn1 & Hf1) (Hn2 & Hf2). split.
  - apply NoDup_app. split; [done|]. split; [|done].
    intros a Ha1 Ha2. apply (Hf2 a Ha2). unfold allocated_state. simpl.
    apply elem_of_union_l. by apply elem_of_list_to_set.
  - intros a [Ha|Ha]%elem_of_app; [by apply Hf1|].
    intros Hal. apply (Hf2 a Ha). unfold allocated_state. simpl.
    by apply elem_of_union_r.
Qed.

Lemma gate_new_spec name s :
  ∃ news g,
    vips_thread_gate_new name s = Ok (g, allocated_state news s) ∧
    fresh_for news s ∧ gate_addrs g ≡ₚ news ∧ gate_wf name g ∧
    gate_view g = ([], []) ∧
    blk_i (gate_start g) = 0 ∧ blk_i (gate_stop g) = 0.
Proof.
  set (s1 := g_new_state s). set (s2 := g_new_state s1).
  exists [g_new_addr s; g_new_addr s1; g_new_addr s2].
  exists (Gate (g_new_addr s) name
            (Block (g_new_addr s1) None zeroed_times 0)
            (Block (g_new_addr s2) None zeroed_times 0)).
  split.
  { unfold vips_thread_gate_new. simpl. do 2 f_equal.
    change (g_new_state s2 =
            allocated_state ([g_new_addr s] ++ [g_new_addr s1] ++
                             [g_new_addr s2]) s).
    rewrite <-!allocated_state_app, <-!g_new_state_allocated. done. }
  split.
  { apply (fresh_for_app [_] [_; _]); [apply fresh_for_g_new|].
    rewrite <-g_new_state_allocated.
    apply (fresh_for_app [_] [_]); [apply fresh_for_g_new|].
    rewrite <-g_new_state_allocated. apply fresh_for_g_new. }
  split.
  { unfold gate_addrs. simpl.
    symmetry. apply (Permutation_cons_append [_; _]). }
  split.
  { split; [done|]. split; apply g_new0_block_wf. }
  done.
Qed.

Lemma gate_block_record_fresh b t s :
  block_wf b →
  ∃ news b',
    gate_block_record b t s = Ok (b', allocated_state news s) ∧
    fresh_for news s ∧ block_addrs b' = block_addrs b ++ news ∧
    block_wf b' ∧ chain_entries b' = chain_entries b ++ [t] ∧
    (blk_i b < VIPS_GATE_SIZE → news = []).
Proof.
  intros Hwf. rewrite gate_block_record_spec by done.
  pose proof (block_recorded_wf (g_new_addr s) b t Hwf) as Hwf'.
  pose proof (block_recorded_entries (g_new_addr s) b t Hwf) as Hent.
  unfold block_recorded in *.
  destruct (decide (VIPS_GATE_SIZE ≤ blk_i b)) as [Hfull|Hroom].
  - eexists [g_new_addr s], _. split.
    { by rewrite g_new_state_allocated. }
    split; [apply fresh_for_g_new|]. split; [done|].
    split; [done|]. split; [done|]. lia.
  - eexists [], _. split.
    { by rewrite allocated_state_nil. }
    split; [apply fresh_for_nil|]. split.
    { destruct b. simpl. by rewrite app_nil_r. }
    done.
Qed.

(** ** The addresses behind a table and behind the thread slots *)

Section ValuesBind.

Context `{Countable K} {V : Type} (f : V → list addr).

Lemma values_bind_insert (m : gmap K V) k v :
  (map_to_list (<[k := v]> m)).*2 ≫= f ≡ₚ
    f v ++ ((map_to_list (delete k m)).*2 ≫= f).
Proof.
  rewrite <-insert_delete_eq.
  rewrite map_to_list_insert by apply lookup_delete_eq.
  by rewrite fmap_cons, bind_cons.
Qed.

Lemma values_bind_lookup (m : gmap K V) k v :
  m !! k = Some v →
  (map_to_list m).*2 ≫= f ≡ₚ f v ++ ((map_to_list (delete k m)).*2 ≫= f).
Proof.
  intros Hk. rewrite <-(insert_id m k v) at 1 by done.
  apply values_bind_insert.
Qed.

End ValuesBind.

Lemma table_addrs_insert tbl name g :
  table_addrs (g_hash_table_insert tbl name g) ≡ₚ
    gate_addrs g ++
    table_addrs (HashTable (tbl_addr tbl) (delete name (tbl_entries tbl))).
Proof.
  unfold table_addrs, g_hash_table_values, g_hash_table_insert. simpl.
  rewrite values_bind_insert. by rewrite <-app_assoc.
Qed.

Lemma table_addrs_lookup tbl name g :
  tbl_entries tbl !! name = Some g →
  table_addrs tbl ≡ₚ
    gate_addrs g ++
    table_addrs (HashTable (tbl_addr tbl) (delete name (tbl_entries tbl))).
Proof.
  intros Hg. unfold table_addrs, g_hash_table_values. simpl.
  rewrite (values_bind_lookup _ _ _ _ Hg). by rewrite <-app_assoc.
Qed.

Lemma table_addrs_fresh tbl name g :
  tbl_entries tbl !! name = None →
  table_addrs (g_hash_table_insert tbl name g) ≡ₚ
    gate_addrs g ++ table_addrs tbl.
Proof.
  intros Hg. rewrite table_addrs_insert. rewrite delete_id by done.
  by destruct tbl.
Qed.

Lemma hash_table_insert_insert tbl name g g' :
  g_hash_table_insert (g_hash_table_insert tbl name g) name g' =
    g_hash_table_insert tbl name g'.
Proof. unfold g_hash_table_insert. simpl. by rewrite insert_insert_eq. Qed.

Lemma owned_by_insert pv self p :
  owned_by (<[self := p]> pv) ≡ₚ profile_addrs p ++ owned_by (delete self pv).
Proof. apply values_bind_insert. Qed.

Lemma owned_by_lookup pv self p :
  pv !! self = Some p →
  owned_by pv ≡ₚ profile_addrs p ++ owned_by (delete self pv).
Proof. apply values_bind_lookup. Qed.

(** ** One gate call on an attached thread *)

(** From here on the pieces are used through their lemmas. *)
Opaque vips_thread_gate_new gate_block_record g_new g_free.
Opaque vips_thread_profile_free.

Lemma times_of_view name p :
  times_of name (profile_view p) =
    match tbl_entries (profile_gates p) !! name with
    | Some g => gate_view g
    | None => ([], [])
    end.
Proof.
  unfold times_of, profile_view. rewrite lookup_fmap.
  by destruct (tbl_entries (profile_gates p) !! name).
Qed.

Lemma gate_start_spec hmt self clk name p s :
  vips_thread_profile_key s = Some ProfileKey →
  private_values s !! self = Some p →
  profile_wf p →
  ∃ news p',
    vips__thread_gate_start hmt self clk name s =
      Ok (tt, set_private (<[self := p']> (private_values s))
                (allocated_state news s)) ∧
    fresh_for news s ∧
    profile_addrs p' ≡ₚ profile_addrs p ++ news ∧
    profile_wf p' ∧
    profile_view p' = log_start (vips_get_time hmt clk) name (profile_view p) ∧
    profile_addr p' = profile_addr p ∧ profile_name p' = profile_name p.
Proof.
  intros Hkey Hp Hwf. unfold vips__thread_gate_start.
  unfold vips_thread_profile_get, g_private_get. simpl.
  rewrite Hkey. simpl. rewrite Hp.
  unfold gate_lookup_or_new, g_hash_table_lookup.
  destruct p as [pa pn [ta entries]]. simpl.
  unfold profile_wf in Hwf. simpl in Hwf.
  unfold log_start. rewrite times_of_view. simpl.
  destruct (entries !! name) as [g|] eqn:Hg.
  - pose proof (Hwf name g Hg) as (Hname & Hstart & Hstop). simpl.
    destruct (gate_block_record_fresh (gate_start g) (vips_get_time hmt clk) s
                Hstart) as (news & b' & Hrec & Hfresh & Haddrs & Hwf' & Hent & _).
    rewrite Hrec. simpl. exists news. eexists. split; [reflexivity|].
    split; [done|]. unfold set_gate_start. simpl. rewrite Hname. split.
    { unfold profile_addrs. simpl. rewrite table_addrs_insert.
      rewrite (table_addrs_lookup (HashTable ta entries) name g Hg). simpl.
      unfold gate_addrs. simpl. rewrite Haddrs. solve_Permutation. }
    split.
    { unfold profile_wf. simpl. apply map_Forall_insert_2; [|done].
      split; [done|]. by split. }
    split; [|done].
    unfold profile_view. simpl. rewrite fmap_insert. f_equal.
    unfold gate_view. simpl. by rewrite Hent.
  - destruct (gate_new_spec name s)
      as (news0 & g & Hnew & Hfresh0 & Hperm0 & Hgwf & Hview & Hi0 & _).
    simpl. rewrite Hnew. simpl. pose proof Hgwf as (Hname & Hstart & Hstop).
    destruct (gate_block_record_fresh (gate_start g) (vips_get_time hmt clk)
                (allocated_state news0 s) Hstart)
      as (news & b' & Hrec & Hfresh & Haddrs & Hwf' & Hent & Hnone).
    rewrite Hrec. simpl. rewrite Hnone in *
      by (rewrite Hi0; unfold VIPS_GATE_SIZE; lia).
    rewrite allocated_state_nil. exists news0. eexists.
    split; [reflexivity|]. split; [done|].
    unfold set_gate_start. simpl. rewrite Hname.
    rewrite hash_table_insert_insert. split.
    { unfold profile_addrs. simpl.
      rewrite (table_addrs_fresh (HashTable ta entries) name _ Hg).
      unfold gate_addrs in *. simpl. rewrite Haddrs, app_nil_r.
      rewrite <-Hperm0. solve_Permutation. }
    split.
    { unfold profile_wf. simpl. apply map_Forall_insert_2; [|done].
      split; [done|]. by split. }
    split; [|done].
    unfold profile_view. simpl. rewrite fmap_insert. f_equal.
    unfold gate_view in *. simpl. rewrite Hent.
    by injection Hview as -> ->.
Qed.

Lemma gate_stop_spec hmt self clk name p s :
  vips_thread_profile_key s = Some ProfileKey →
  private_values s !! self = Some p →
  profile_wf p →
  ∃ news p',
    vips__thread_gate_stop hmt self clk name s =
      Ok (tt, set_private (<[self := p']> (private_values s))
                (allocated_state news s)) ∧
    fresh_for news s ∧
    profile_addrs p' ≡ₚ profile_addrs p ++ news ∧
    profile_wf p' ∧
    profile_view p' = log_stop (vips_get_time hmt clk) name (profile_view p) ∧
    profile_addr p' = profile_addr p ∧ profile_name p' = profile_name p.
Proof.
  intros Hkey Hp Hwf. unfold vips__thread_gate_stop.
  unfold vips_thread_profile_get, g_private_get. simpl.
  rewrite Hkey. simpl. rewrite Hp.
  unfold gate_lookup_or_new, g_hash_table_lookup.
  destruct p as [pa pn [ta entries]]. simpl.
  unfold profile_wf in Hwf. simpl in Hwf.
  unfold log_stop. rewrite times_of_view. simpl.
  destruct (entries !! name) as [g|] eqn:Hg.
  - pose proof (Hwf name g Hg) as (Hname & Hstart & Hstop). simpl.
    destruct (gate_block_record_fresh (gate_stop g) (vips_get_time hmt clk) s
                Hstop) as (news & b' & Hrec & Hfresh & Haddrs & Hwf' & Hent & _).
    rewrite Hrec. simpl. exists news. eexists. split; [reflexivity|].
    split; [done|]. unfold set_gate_stop. simpl. rewrite Hname. split.
    { unfold profile_addrs. simpl. rewrite table_addrs_insert.
      rewrite (table_addrs_lookup (HashTable ta entries) name g Hg). simpl.
      unfold gate_addrs. simpl. rewrite Haddrs. solve_Permutation. }
    split.
    { unfold profile_wf. simpl. apply map_Forall_insert_2; [|done].
      split; [done|]. by split. }
    split; [|done].
    unfold profile_view. simpl. rewrite fmap_insert. f_equal.
    unfold gate_view. simpl. by rewrite Hent.
  - destruct (gate_new_spec name s)
      as (news0 & g & Hnew & Hfresh0 & Hperm0 & Hgwf & Hview & _ & Hi0).
    simpl. rewrite Hnew. simpl. pose proof Hgwf as (Hname & Hstart & Hstop).
    destruct (gate_block_record_fresh (gate_stop g) (vips_get_time hmt clk)
                (allocated_state news0 s) Hstop)
      as (news & b' & Hrec & Hfresh & Haddrs & Hwf' & Hent & Hnone).
    rewrite Hrec. simpl. rewrite Hnone in *
      by (rewrite Hi0; unfold VIPS_GATE_SIZE; lia).
    rewrite allocated_state_nil. exists news0. eexists.
    split; [reflexivity|]. split; [done|].
    unfold set_gate_stop. simpl. rewrite Hname.
    rewrite hash_table_insert_insert. split.
    { unfold profile_addrs. simpl.
      rewrite (table_addrs_fresh (HashTable ta entries) name _ Hg).
      unfold gate_addrs in *. simpl. rewrite Haddrs, app_nil_r.
      rewrite <-Hperm0. solve_Permutation. }
    split.
    { unfold profile_wf. simpl. apply map_Forall_insert_2; [|done].
      split; [done|]. by split. }
    split; [|done].
    unfold profile_view. simpl. rewrite fmap_insert. f_equal.
    unfold gate_view in *. simpl. rewrite Hent.
    by injection Hview as -> ->.
Qed.

(** ** Gate calls on a thread without a profile *)

Lemma profile_get_noprofile self s :
  private_values s !! self = None →
  vips_thread_profile_get self s =
    match vips_thread_profile_key s with
    | Some _ => Ok (None, s)
    | None => OutsideContract
    end.
Proof.
  intros Hp. unfold vips_thread_profile_get, g_private_get. simpl.
  destruct (vips_thread_profile_key s) as [k|]; simpl; [|done].
  by rewrite Hp.
Qed.

Lemma profile_get_unattached self s :
  vips_thread_profile_key s = Some ProfileKey →
  private_values s !! self = None →
  vips_thread_profile_get self s = Ok (None, s).
Proof. intros Hkey Hp. by rewrite profile_get_noprofile, Hkey. Qed.

Lemma gate_start_noprofile hmt self clk name s :
  private_values s !! self = None →
  vips__thread_gate_start hmt self clk name s =
    match vips_thread_profile_key s with
    | Some _ => Ok (tt, s)
    | None => OutsideContract
    end.
Proof.
  intros Hp. unfold vips__thread_gate_start. simpl.
  rewrite profile_get_noprofile by done.
  by destruct (vips_thread_profile_key s).
Qed.

Lemma gate_stop_noprofile hmt self clk name s :
  private_values s !! self = None →
  vips__thread_gate_stop hmt self clk name s =
    match vips_thread_profile_key s with
    | Some _ => Ok (tt, s)
    | None => OutsideContract
    end.
Proof.
  intros Hp. unfold vips__thread_gate_stop. simpl.
  rewrite profile_get_noprofile by done.
  by destruct (vips_thread_profile_key s).
Qed.

Lemma gate_start_unattached hmt self clk name s s' :
  private_values s !! self = None →
  vips__thread_gate_start hmt self clk name s = Ok (tt, s') →
  s' = s.
Proof.
  intros Hp. rewrite gate_start_noprofile by done.
  destruct (vips_thread_profile_key s); [|done]. by intros [= <-].
Qed.

Lemma gate_stop_unattached hmt self clk name s s' :
  private_values s !! self = None →
  vips__thread_gate_stop hmt self clk name s = Ok (tt, s') →
  s' = s.
Proof.
  intros Hp. rewrite gate_stop_noprofile by done.
  destruct (vips_thread_profile_key s); [|done]. by intros [= <-].
Qed.

(** C3: while the key has not been made, which is until the first attach
    of the process and so for ever when profiling is disabled and nothing
    attaches, [vips_thread_profile_get] hands [g_private_get] a NULL key,
    and so does a start call and a stop call: GLib documents no result for
    that, and the call does not end as the no-op the guard
    [if ((profile = vips_thread_profile_get ()))] is there for.  Attach makes
    the key, through [g_once], before its own [g_private_get]. *)
Theorem gate_calls_before_first_attach hmt self clk name s :
  vips_thread_profile_key s = None →
  vips_thread_profile_get self s = OutsideContract ∧
  vips__thread_gate_start hmt self clk name s = OutsideContract ∧
  vips__thread_gate_stop hmt self clk name s = OutsideContract ∧
  vips__thread_gate_start hmt self clk name s ≠ Ok (tt, s).
Proof.
  intros Hkey.
  assert (vips_thread_profile_get self s = OutsideContract) as Hget.
  { unfold vips_thread_profile_get, g_private_get. simpl. by rewrite Hkey. }
  assert (vips__thread_gate_start hmt self clk name s = OutsideContract)
    as Hstart.
  { unfold vips__thread_gate_start. simpl. by rewrite Hget. }
  split; [done|]. split; [done|]. split; [|by rewrite Hstart].
  unfold vips__thread_gate_stop. simpl. by rewrite Hget.
Qed.

Lemma gate_calls_before_first_attach_witness :
  initial (new_process false true) ∧
  vips_thread_profile_key (new_process false true) = None ∧
  vips_thread_profile_get 3%nat (new_process false true) = OutsideContract ∧
  vips__thread_gate_start true 3%nat (demo_clock 100) "decode"
    (new_process false true) = OutsideContract ∧
  vips__thread_gate_stop true 3%nat (demo_clock 140) "decode"
    (new_process false true) = OutsideContract.
Proof.
  split; [by repeat split|]. split; [reflexivity|].
  destruct (gate_calls_before_first_attach true 3%nat (demo_clock 100)
              "decode" (new_process false true) eq_refl)
    as (Hget & Hstart & _ & _).
  split; [exact Hget|]. split; [exact Hstart|].
  exact (proj1 (proj2 (proj2
    (gate_calls_before_first_attach true 3%nat (demo_clock 140) "decode"
       (new_process false true) eq_refl)))).
Defined.

(** ** Counting effects *)

Lemma count_nil f : count f [] = 0%nat.
Proof. done. Qed.

Lemma count_app f l1 l2 : count f (l1 ++ l2) = (count f l1 + count f l2)%nat.
Proof. unfold count. by rewrite filter_app, length_app. Qed.

Lemma count_cons f e l :
  count f (e :: l) = ((if f e then 1 else 0) + count f l)%nat.
Proof.
  unfold count. rewrite filter_cons.
  destruct (f e); by rewrite ?decide_True, ?decide_False by done.
Qed.

Lemma count_zero f l : Forall (λ e, f e = false) l → count f l = 0%nat.
Proof.
  induction 1 as [|e l He _ IH]; [done|]. by rewrite count_cons, He, IH.
Qed.

Lemma silent_malloc l : Forall silent (Malloc <$> l).
Proof. apply Forall_fmap, Forall_true. by intros a. Qed.

Lemma silent_free l : Forall silent (Free <$> l).
Proof. apply Forall_fmap, Forall_true. by intros a. Qed.

Lemma silent_leaves_log l : Forall silent l → Forall leaves_log l.
Proof. intros Hl. eapply Forall_impl; [exact Hl|]. by intros e [He _]. Qed.

Lemma silent_no_fprintf l : Forall silent l → count is_fprintf l = 0%nat.
Proof.
  intros Hl. apply count_zero. eapply Forall_impl; [exact Hl|].
  by intros e [_ He].
Qed.

Lemma teardown_writes_leave_log fp p : Forall leaves_log (teardown_writes fp p).
Proof.
  destruct fp as [fp|]; unfold teardown_writes; [|constructor].
  apply Forall_app. split; [by repeat constructor|].
  apply Forall_app. split.
  - apply Forall_fmap, Forall_true. by intros c.
  - by repeat constructor.
Qed.

(** ** The statics around the log under further effects *)

Lemma sink_inv_extend s s' es :
  sink_inv s →
  vips__thread_profile s' = vips__thread_profile s →
  vips_thread_profile_key s' = vips_thread_profile_key s →
  vips__thread_fp s' = vips__thread_fp s →
  once s' = once s →
  effects s' = effects s ++ es →
  Forall leaves_log es →
  is_Some (vips__thread_fp s) ∨ count is_fprintf es = 0%nat →
  sink_inv s'.
Proof.
  intros [Hkey Hfp Hopens Hmode Hcloses Hdis] Eflag Ekey Efp Eonce Eeff Hes Hpr.
  assert (count is_open es = 0%nat) as Hno_open.
  { apply count_zero. eapply Forall_impl; [exact Hes|]. by intros e [He _]. }
  assert (count is_close es = 0%nat) as Hno_close.
  { apply count_zero. eapply Forall_impl; [exact Hes|]. by intros e [_ He]. }
  split; rewrite ?Eflag, ?Ekey, ?Efp, ?Eonce, ?Eeff, ?count_app,
           ?Hno_open, ?Hno_close, ?Nat.add_0_r; try done.
  - apply Forall_app. split; [done|]. eapply Forall_impl; [exact Hes|].
    intros e [He _] He'. congruence.
  - intros Hflag. rewrite (Hdis Hflag). destruct Hpr as [Hsome|Hnone].
    + destruct (Hfp Hsome) as (Hflag' & _). congruence.
    + by rewrite Hnone.
Qed.

(** ** The memory of the profiles under allocation and teardown *)

Lemma memory_inv_allocated s pv news :
  memory_inv s →
  fresh_for news s →
  owned_by pv ≡ₚ owned s ++ news →
  memory_inv (set_private pv (allocated_state news s)).
Proof.
  intros [Hnodup Hlive] [Hnews Hfresh] Hperm. split.
  - unfold owned. simpl. rewrite Hperm. apply NoDup_app.
    split; [done|]. split; [|done].
    intros a Ha Hin. apply (Hfresh a Hin). by apply Hlive.
  - intros a. unfold owned. simpl. rewrite Hperm.
    unfold allocated_state. simpl. rewrite elem_of_union, elem_of_list_to_set.
    intros [Ha|Ha]%elem_of_app; [right; by apply Hlive|by left].
Qed.

Lemma memory_inv_released s self p es :
  memory_inv s →
  private_values s !! self = Some p →
  memory_inv (released (profile_addrs p)
                (add_effects es
                   (set_private (delete self (private_values s)) s))).
Proof.
  intros [Hnodup Hlive] Hp. unfold owned in *.
  pose proof (owned_by_lookup _ _ _ Hp) as Hperm.
  rewrite Hperm in Hnodup. apply NoDup_app in Hnodup as (Hn1 & Hdisj & Hn2).
  split.
  - unfold owned. done.
  - intros a Ha. unfold owned in Ha. simpl in Ha.
    unfold released. simpl. apply elem_of_difference. split.
    + apply Hlive. rewrite Hperm. apply elem_of_app. by right.
    + rewrite elem_of_list_to_set. intros Hin. by apply (Hdisj a).
Qed.

Lemma memory_inv_profile s self p :
  memory_inv s →
  private_values s !! self = Some p →
  NoDup (profile_addrs p) ∧ ∀ a, a ∈ profile_addrs p → a ∈ allocated s.
Proof.
  intros [Hnodup Hlive] Hp. unfold owned in *.
  pose proof (owned_by_lookup _ _ _ Hp) as Hperm.
  rewrite Hperm in Hnodup. apply NoDup_app in Hnodup as (Hn1 & _ & _).
  split; [done|]. intros a Ha. apply Hlive. rewrite Hperm.
  apply elem_of_app. by left.
Qed.

(** ** The one-time initialisation and attach *)

Lemma g_once_init_spec s :
  g_once vips__thread_profile_init s =
    if once s then Ok (tt, s)
    else if vips__thread_profile s && negb (log_writable s)
         then ErrorExit "unable to create profile log"
         else Ok (tt, once_state s).
Proof.
  destruct s as [flag key fp done pv al writable es].
  unfold g_once, vips__thread_profile_init, once_state,
    vips__file_open_write. simpl.
  destruct done; [done|].
  destruct flag, writable, key as [[]|];
    unfold set_once, add_effects, set_fp, set_key; simpl;
    rewrite <-?app_assoc; done.
Qed.

Lemma once_state_once s : once (once_state s) = true.
Proof.
  destruct s as [flag key fp done pv al writable es].
  unfold once_state. simpl. by destruct done, flag.
Qed.

Lemma once_state_private s :
  private_values (once_state s) = private_values s.
Proof.
  destruct s as [flag key fp done pv al writable es].
  unfold once_state. simpl. by destruct done, flag.
Qed.

Lemma once_state_allocated s : allocated (once_state s) = allocated s.
Proof.
  destruct s as [flag key fp done pv al writable es].
  unfold once_state. simpl. by destruct done, flag.
Qed.

Lemma once_state_flag s :
  vips__thread_profile (once_state s) = vips__thread_profile s.
Proof.
  destruct s as [flag key fp done pv al writable es].
  unfold once_state. simpl. by destruct done, flag.
Qed.

Lemma sink_inv_once_state s : sink_inv s → sink_inv (once_state s).
Proof.
  intros Hinv. unfold once_state.
  destruct (once s) eqn:Honce; [done|].
  destruct Hinv as [Hkey Hfp Hopens Hmode Hcloses Hdis].
  rewrite Honce, andb_false_r in Hopens. rewrite Hopens in Hcloses.
  destruct (vips__thread_profile s) eqn:Hflag.
  - split; simpl;
      rewrite ?Hflag, ?count_app, ?count_cons, ?count_nil, ?Hopens; simpl;
      try done; try lia.
    apply Forall_app. split; [done|]. by repeat constructor.
  - split; simpl; rewrite ?Hflag, ?Hopens; try done; try lia.
    intros Hsome. destruct (Hfp Hsome) as (_ & Honce' & _). congruence.
Qed.

Lemma attach_ok self name s s1 :
  g_once vips__thread_profile_init s = Ok (tt, s1) →
  vips_thread_profile_get self s1 = Ok (None, s1) →
  vips__thread_profile_attach self name s =
    Ok (tt, attached_state self name s1).
Proof.
  intros Honce Hget. unfold vips__thread_profile_attach. simpl.
  rewrite Honce. unfold vips_thread_profile_get in Hget. rewrite Hget.
  simpl. rewrite g_new_spec. unfold g_hash_table_new_full. simpl.
  rewrite g_new_spec. unfold g_private_set, attached_state. simpl.
  do 3 f_equal. rewrite !g_new_state_allocated, allocated_state_app.
  simpl. done.
Qed.

Lemma attach_twice self name s s1 p :
  g_once vips__thread_profile_init s = Ok (tt, s1) →
  vips_thread_profile_key s1 = Some ProfileKey →
  private_values s1 !! self = Some p →
  vips__thread_profile_attach self name s = AssertionFailed.
Proof.
  intros Honce Hkey Hp. unfold vips__thread_profile_attach. simpl.
  rewrite Honce. unfold g_private_get. simpl. rewrite Hkey. simpl.
  by rewrite Hp.
Qed.

Lemma attach_exit self name s msg :
  g_once vips__thread_profile_init s = ErrorExit msg →
  vips__thread_profile_attach self name s = ErrorExit msg.
Proof.
  intros Honce. unfold vips__thread_profile_attach. simpl. by rewrite Honce.
Qed.

Lemma profile_stop_spec s :
  vips__thread_profile_stop s =
    Ok (tt, if vips__thread_profile s
            then match vips__thread_fp s with
                 | Some _ => set_fp None (add_effects [Fclose] s)
                 | None => s
                 end
            else s).
Proof.
  destruct s as [flag key fp done pv al writable es].
  unfold vips__thread_profile_stop. simpl.
  destruct flag; [|done]. by destruct fp.
Qed.

(** ** Every call keeps the invariant *)

Lemma logged_snoc hmt cs c :
  logged hmt (cs ++ [c]) = log_call hmt (logged hmt cs) c.
Proof. unfold logged. by rewrite foldl_app. Qed.

Lemma g_once_init_ok s s1 :
  g_once vips__thread_profile_init s = Ok (tt, s1) → s1 = once_state s.
Proof.
  rewrite g_once_init_spec. unfold once_state.
  destruct (once s); [congruence|].
  destruct (vips__thread_profile s && negb (log_writable s)); [done|].
  unfold once_state. congruence.
Qed.

Lemma process_inv_once_state hmt cs s :
  process_inv hmt cs s → process_inv hmt cs (once_state s).
Proof.
  intros [Hsink [Hnodup Hlive] Hatt Hwf Hlog]. split.
  - by apply sink_inv_once_state.
  - split; unfold owned; rewrite once_state_private; [done|].
    intros a Ha. rewrite once_state_allocated. by apply Hlive.
  - intros self p _. apply once_state_once.
  - intros self p. rewrite once_state_private. apply Hwf.
  - unfold process_view. by rewrite once_state_private.
Qed.

Lemma inv_once_state_key hmt cs s :
  process_inv hmt cs s →
  vips_thread_profile_key (once_state s) = Some ProfileKey.
Proof.
  intros Hinv.
  apply (sink_key _ (inv_sink _ _ _ (process_inv_once_state _ _ _ Hinv))).
  apply once_state_once.
Qed.

Lemma attached_profile_addrs name s :
  profile_addrs (attached_profile name s) =
    [g_new_addr (g_new_state s); g_new_addr s].
Proof.
  unfold profile_addrs, table_addrs, g_hash_table_values. simpl.
  by rewrite map_to_list_empty.
Qed.

Lemma attached_inv hmt cs self name s :
  process_inv hmt cs s →
  once s = true →
  private_values s !! self = None →
  process_inv hmt (cs ++ [Attach self name]) (attached_state self name s).
Proof.
  intros [Hsink Hmem Hatt Hwf Hlog] Honce Hnone. split.
  - apply (sink_inv_extend s _ (Malloc <$> [g_new_addr s;
                                              g_new_addr (g_new_state s)]));
      try done.
    + apply silent_leaves_log, silent_malloc.
    + right. apply silent_no_fprintf, silent_malloc.
  - apply memory_inv_allocated; [done| |].
    + apply (fresh_for_app [_] [_]); [apply fresh_for_g_new|].
      rewrite <-g_new_state_allocated. apply fresh_for_g_new.
    + rewrite owned_by_insert, delete_id by done.
      rewrite attached_profile_addrs. unfold owned. solve_Permutation.
  - intros self' p _. done.
  - intros self' p. unfold attached_state. simpl.
    destruct (decide (self = self')) as [->|Hne].
    + rewrite lookup_insert_eq. intros [= <-].
      unfold profile_wf. simpl. apply map_Forall_empty.
    + rewrite lookup_insert_ne by done. apply Hwf.
  - rewrite logged_snoc. simpl. rewrite <-Hlog.
    unfold process_view, attached_state. simpl. rewrite fmap_insert.
    unfold profile_view. simpl. by rewrite fmap_empty.
Qed.

Lemma attach_inv hmt cs self name s s' :
  process_inv hmt cs s →
  vips__thread_profile_attach self name s = Ok (tt, s') →
  private_values s !! self = None ∧
  s' = attached_state self name (once_state s) ∧
  process_inv hmt (cs ++ [Attach self name]) s'.
Proof.
  intros Hinv Hrun.
  destruct (g_once vips__thread_profile_init s) as [[[] s1]|  |msg| |] eqn:Honce.
  - pose proof (g_once_init_ok _ _ Honce) as ->.
    pose proof (process_inv_once_state _ _ _ Hinv) as Hinv1.
    destruct (private_values s !! self) as [p|] eqn:Hp.
    + rewrite (attach_twice self name s _ p Honce) in Hrun; [done| |].
      * apply (sink_key _ (inv_sink _ _ _ Hinv1)), once_state_once.
      * by rewrite once_state_private.
    + rewrite (attach_ok self name s _ Honce) in Hrun.
      * injection Hrun as <-. split; [done|]. split; [done|].
        apply attached_inv; [done|apply once_state_once|].
        by rewrite once_state_private.
      * apply profile_get_unattached;
          [by apply (inv_once_state_key hmt cs)|]. by rewrite once_state_private.
  - unfold vips__thread_profile_attach in Hrun. simpl in Hrun.
    by rewrite Honce in Hrun.
  - by rewrite (attach_exit _ _ _ _ Honce) in Hrun.
  - unfold vips__thread_profile_attach in Hrun. simpl in Hrun.
    by rewrite Honce in Hrun.
  - unfold vips__thread_profile_attach in Hrun. simpl in Hrun.
    by rewrite Honce in Hrun.
Qed.

Lemma inv_unattached hmt cs self s :
  process_inv hmt cs s →
  vips_thread_profile_get self s = Ok (None, s) →
  private_values s !! self = None.
Proof.
  intros Hinv Hget.
  unfold vips_thread_profile_get, g_private_get in Hget. simpl in Hget.
  destruct (vips_thread_profile_key s); simpl in Hget; [|done].
  by injection Hget.
Qed.

Lemma inv_attached_key hmt cs self p s :
  process_inv hmt cs s →
  private_values s !! self = Some p →
  vips_thread_profile_key s = Some ProfileKey.
Proof.
  intros Hinv Hp. apply (sink_key _ (inv_sink _ _ _ Hinv)).
  by apply (inv_attached _ _ _ Hinv _ _ Hp).
Qed.

Lemma logged_view_lookup hmt cs self s :
  process_inv hmt cs s →
  logged hmt cs !! self = profile_view <$> private_values s !! self.
Proof.
  intros Hinv. rewrite <-(inv_logged _ _ _ Hinv).
  unfold process_view. by rewrite lookup_fmap.
Qed.

(** The state after a gate call on an attached thread. *)
Lemma gate_recorded_inv hmt cs c self p p' news s :
  process_inv hmt cs s →
  private_values s !! self = Some p →
  fresh_for news s →
  profile_addrs p' ≡ₚ profile_addrs p ++ news →
  profile_wf p' →
  log_call hmt (logged hmt cs) c =
    <[self := profile_view p']> (logged hmt cs) →
  process_inv hmt (cs ++ [c])
    (set_private (<[self := p']> (private_values s))
       (allocated_state news s)).
Proof.
  intros Hinv Hp Hfresh Hperm Hwf' Hlog.
  destruct Hinv as [Hsink Hmem Hatt Hwf Hlogged]. split.
  - apply (sink_inv_extend s _ (Malloc <$> news)); try done.
    + apply silent_leaves_log, silent_malloc.
    + right. apply silent_no_fprintf, silent_malloc.
  - apply memory_inv_allocated; [done|done|].
    rewrite owned_by_insert, Hperm. unfold owned.
    rewrite (owned_by_lookup _ _ _ Hp). solve_Permutation.
  - intros self' q _. simpl. by apply (Hatt self p).
  - intros self' q. simpl. destruct (decide (self = self')) as [->|Hne].
    + rewrite lookup_insert_eq. by intros [= <-].
    + rewrite lookup_insert_ne by done. apply Hwf.
  - rewrite logged_snoc, Hlog, <-Hlogged.
    unfold process_view. simpl. by rewrite fmap_insert.
Qed.

Lemma gate_start_inv hmt cs self clk name s s' :
  process_inv hmt cs s →
  vips__thread_gate_start hmt self clk name s = Ok (tt, s') →
  process_inv hmt (cs ++ [GateStart self clk name]) s'.
Proof.
  intros Hinv Hrun.
  destruct (private_values s !! self) as [p|] eqn:Hp.
  - destruct (gate_start_spec hmt self clk name p s)
      as (news & p' & Hspec & Hfresh & Hperm & Hwf' & Hview & _);
      [by eapply inv_attached_key|done|by eapply inv_wf|].
    rewrite Hspec in Hrun. injection Hrun as <-.
    apply (gate_recorded_inv _ _ _ self p); try done.
    simpl. rewrite (logged_view_lookup _ _ _ _ Hinv), Hp. simpl.
    by rewrite Hview.
  - apply gate_start_unattached in Hrun as ->; [|done]. destruct Hinv as [Hsink Hmem Hatt Hwf Hlogged].
    split; try done.
    rewrite logged_snoc. simpl. rewrite <-Hlogged.
    unfold process_view at 2. by rewrite lookup_fmap, Hp.
Qed.

Lemma gate_stop_inv hmt cs self clk name s s' :
  process_inv hmt cs s →
  vips__thread_gate_stop hmt self clk name s = Ok (tt, s') →
  process_inv hmt (cs ++ [GateStop self clk name]) s'.
Proof.
  intros Hinv Hrun.
  destruct (private_values s !! self) as [p|] eqn:Hp.
  - destruct (gate_stop_spec hmt self clk name p s)
      as (news & p' & Hspec & Hfresh & Hperm & Hwf' & Hview & _);
      [by eapply inv_attached_key|done|by eapply inv_wf|].
    rewrite Hspec in Hrun. injection Hrun as <-.
    apply (gate_recorded_inv _ _ _ self p); try done.
    simpl. rewrite (logged_view_lookup _ _ _ _ Hinv), Hp. simpl.
    by rewrite Hview.
  - apply gate_stop_unattached in Hrun as ->; [|done]. destruct Hinv as [Hsink Hmem Hatt Hwf Hlogged].
    split; try done.
    rewrite logged_snoc. simpl. rewrite <-Hlogged.
    unfold process_view at 2. by rewrite lookup_fmap, Hp.
Qed.

(** The state that the exit of an attached thread leaves. *)
Lemma thread_exit_attached hmt cs self p s :
  process_inv hmt cs s →
  private_values s !! self = Some p →
  g_thread_exit self s =
    Ok (tt, released (profile_addrs p)
              (add_effects (teardown_writes (vips__thread_fp s) p)
                 (set_private (delete self (private_values s)) s))).
Proof.
  intros Hinv Hp.
  rewrite (g_thread_exit_spec self p) by (by eauto using inv_attached_key).
  destruct (memory_inv_profile s self p) as [Hnodup Hlive];
    [by eapply inv_memory|done|].
  rewrite profile_free_spec; [done|by eapply inv_wf|done|done].
Qed.

Lemma thread_exit_unattached self s :
  private_values s !! self = None →
  g_thread_exit self s = Ok (tt, s).
Proof.
  intros Hp. unfold g_thread_exit. simpl. rewrite Hp.
  by destruct (vips_thread_profile_key s).
Qed.

Lemma thread_exit_inv hmt cs self s s' :
  process_inv hmt cs s →
  g_thread_exit self s = Ok (tt, s') →
  process_inv hmt (cs ++ [ThreadExit self]) s'.
Proof.
  intros Hinv Hrun.
  destruct (private_values s !! self) as [p|] eqn:Hp.
  - rewrite (thread_exit_attached hmt cs self p) in Hrun by done.
    injection Hrun as <-.
    pose proof Hinv as [Hsink Hmem Hatt Hwf Hlogged]. split.
    + apply (sink_inv_extend s _
               (teardown_writes (vips__thread_fp s) p ++
                (Free <$> profile_addrs p))); try done.
      * simpl. by rewrite app_assoc.
      * apply Forall_app. split; [apply teardown_writes_leave_log|].
        apply silent_leaves_log, silent_free.
      * destruct (vips__thread_fp s) as [fp|]; [left; by eexists|].
        right. simpl. apply silent_no_fprintf, silent_free.
    + by apply memory_inv_released.
    + intros self' q. simpl. intros Hq%lookup_delete_Some.
      destruct Hq as [_ Hq]. by apply (Hatt self' q).
    + intros self' q. simpl. intros Hq%lookup_delete_Some.
      destruct Hq as [_ Hq]. by apply (Hwf self' q).
    + rewrite logged_snoc. simpl. rewrite <-Hlogged.
      unfold process_view. simpl. by rewrite fmap_delete.
  - rewrite thread_exit_unattached in Hrun by done.
    injection Hrun as <-. destruct Hinv as [Hsink Hmem Hatt Hwf Hlogged].
    split; try done.
    rewrite logged_snoc. simpl. rewrite <-Hlogged.
    rewrite delete_id; [done|].
    unfold process_view. by rewrite lookup_fmap, Hp.
Qed.

Lemma profile_stop_inv hmt cs s s' :
  process_inv hmt cs s →
  vips__thread_profile_stop s = Ok (tt, s') →
  process_inv hmt (cs ++ [ProfileStop]) s'.
Proof.
  intros Hinv. rewrite profile_stop_spec. intros [= <-].
  assert (logged hmt (cs ++ [ProfileStop]) = logged hmt cs) as Hsame.
  { by rewrite logged_snoc. }
  destruct (vips__thread_profile s) eqn:Hflag;
    [|by destruct Hinv; split; rewrite ?Hsame].
  destruct (vips__thread_fp s) as [fp|] eqn:Hfp;
    [|by destruct Hinv; split; rewrite ?Hsame].
  destruct Hinv as [[Hkey Hfp' Hopens Hmode Hcloses Hdis] Hmem Hatt Hwf Hlog].
  destruct Hfp' as (_ & Honce & Hnone); [by rewrite Hfp|].
  rewrite Hflag, Honce in Hopens. simpl in Hopens.
  split; rewrite ?Hsame; try done.
  - split; simpl;
      rewrite ?Hflag, ?Honce, ?count_app, ?count_cons, ?count_nil;
      simpl; try done; try lia.
    + intros _. by apply Hkey.
    + apply Forall_app. split; [done|]. by repeat constructor.
  - by destruct Hmem.
Qed.

Lemma step_inv hmt cs c s s' :
  process_inv hmt cs s →
  step hmt c s = Ok (tt, s') →
  process_inv hmt (cs ++ [c]) s'.
Proof.
  intros Hinv Hstep. destruct c as [self name|self clk name|self clk name|self|];
    simpl in Hstep.
  - by apply (attach_inv hmt cs self name s s').
  - by apply (gate_start_inv hmt cs self clk name s s').
  - by apply (gate_stop_inv hmt cs self clk name s s').
  - by apply (thread_exit_inv hmt cs self s s').
  - by apply (profile_stop_inv hmt cs s s').
Qed.

Lemma run_snoc hmt cs c s :
  run hmt (cs ++ [c]) s = (run hmt cs ;;; step hmt c) s.
Proof.
  unfold run. revert s. induction cs as [|c' cs IH]; intros s; simpl.
  - by destruct (step hmt c s) as [[[] s1]| |msg| |].
  - destruct (step hmt c' s) as [[[] s1]| |msg| |]; [|done..]. apply IH.
Qed.

Lemma run_inv_from hmt cs0 cs s s' :
  process_inv hmt cs0 s →
  run hmt cs s = Ok (tt, s') →
  process_inv hmt (cs0 ++ cs) s'.
Proof.
  revert cs0 s. induction cs as [|c cs IH]; intros cs0 s Hinv Hrun.
  - injection Hrun as <-. by rewrite app_nil_r.
  - unfold run in Hrun. simpl in Hrun.
    destruct (step hmt c s) as [[[] s1]| |msg| |] eqn:Hstep; try done.
    rewrite (cons_middle c cs0 cs), app_assoc.
    apply (IH _ s1); [|done]. by apply (step_inv hmt cs0 c s).
Qed.

Lemma initial_inv hmt s : initial s → process_inv hmt [] s.
Proof.
  intros (Hkey & Hfp & Honce & Hpv & Hes).
  split; [split|split|..]; unfold owned, process_view;
    rewrite ?Hkey, ?Hfp, ?Honce, ?Hpv, ?Hes, ?andb_false_r; try done.
  - unfold owned_by. rewrite map_to_list_empty. constructor.
  - intros a Ha. unfold owned_by in Ha. rewrite map_to_list_empty in Ha.
    by apply elem_of_nil in Ha.
Qed.

Lemma run_inv hmt cs s0 s :
  initial s0 → run hmt cs s0 = Ok (tt, s) → process_inv hmt cs s.
Proof.
  intros Hinit Hrun. apply (run_inv_from hmt [] cs s0 s); [|done].
  by apply initial_inv.
Qed.

(** ** The one-time initialisation has run exactly when a call attached *)

Lemma step_once hmt cs c s s' :
  process_inv hmt cs s →
  step hmt c s = Ok (tt, s') →
  once s' = true ↔ is_attach c ∨ once s = true.
Proof.
  intros Hinv Hstep.
  destruct c as [self name|self clk name|self clk name|self|];
    simpl in Hstep.
  - destruct (attach_inv hmt cs self name s s' Hinv Hstep) as (_ & -> & _).
    simpl. rewrite once_state_once. split; [by left|done].
  - destruct (private_values s !! self) as [p|] eqn:Hp.
    + destruct (gate_start_spec hmt self clk name p s)
        as (news & p' & Hspec & _);
        [by eapply inv_attached_key|done|by eapply inv_wf|].
      rewrite Hspec in Hstep. injection Hstep as <-. simpl. tauto.
    + apply gate_start_unattached in Hstep as ->; [|done]. simpl. tauto.
  - destruct (private_values s !! self) as [p|] eqn:Hp.
    + destruct (gate_stop_spec hmt self clk name p s)
        as (news & p' & Hspec & _);
        [by eapply inv_attached_key|done|by eapply inv_wf|].
      rewrite Hspec in Hstep. injection Hstep as <-. simpl. tauto.
    + apply gate_stop_unattached in Hstep as ->; [|done]. simpl. tauto.
  - destruct (private_values s !! self) as [p|] eqn:Hp.
    + rewrite (thread_exit_attached hmt cs self p) in Hstep by done.
      injection Hstep as <-. simpl. tauto.
    + rewrite thread_exit_unattached in Hstep by done.
      injection Hstep as <-. simpl. tauto.
  - rewrite profile_stop_spec in Hstep. injection Hstep as <-.
    destruct (vips__thread_profile s); [|simpl; tauto].
    destruct (vips__thread_fp s); simpl; tauto.
Qed.

Lemma run_once_from hmt cs0 cs s s' :
  process_inv hmt cs0 s →
  run hmt cs s = Ok (tt, s') →
  once s' = true ↔ Exists is_attach cs ∨ once s = true.
Proof.
  revert cs0 s. induction cs as [|c cs IH]; intros cs0 s Hinv Hrun.
  - injection Hrun as <-. rewrite Exists_nil. tauto.
  - unfold run in Hrun. simpl in Hrun.
    destruct (step hmt c s) as [[[] s1]| |msg| |] eqn:Hstep; try done.
    rewrite (IH (cs0 ++ [c]) s1); [|by apply (step_inv hmt cs0 c s)|done].
    rewrite (step_once hmt cs0 c s s1 Hinv Hstep), Exists_cons. tauto.
Qed.

Lemma run_once hmt cs s0 s :
  initial s0 → run hmt cs s0 = Ok (tt, s) →
  once s = true ↔ Exists is_attach cs.
Proof.
  intros Hinit Hrun.
  rewrite (run_once_from hmt [] cs s0 s (initial_inv hmt s0 Hinit) Hrun).
  destruct Hinit as (_ & _ & Honce & _). rewrite Honce.
  split; [by intros [?|?]|by left].
Qed.

(** ** What a profile occupies *)

Lemma block_addrs_chain b b' :
  b' ∈ chain_blocks b → blk_addr b' ∈ block_addrs b.
Proof.
  induction b as [a t i|a p t i IH] using block_chain_ind; simpl.
  - intros ->%list_elem_of_singleton. by apply list_elem_of_singleton.
  - intros [->|Hin]%elem_of_cons; apply elem_of_app.
    + right. by apply list_elem_of_singleton.
    + left. by apply IH.
Qed.

Lemma gate_addrs_table tbl name g a :
  tbl_entries tbl !! name = Some g → a ∈ gate_addrs g → a ∈ table_addrs tbl.
Proof.
  intros Hg Ha. rewrite (table_addrs_lookup tbl name g Hg).
  apply elem_of_app. by left.
Qed.

Lemma profile_addrs_cover p :
  profile_addr p ∈ profile_addrs p ∧
  tbl_addr (profile_gates p) ∈ profile_addrs p ∧
  ∀ name g, tbl_entries (profile_gates p) !! name = Some g →
    gate_addr g ∈ profile_addrs p ∧
    ∀ b, b ∈ chain_blocks (gate_start g) ++ chain_blocks (gate_stop g) →
         blk_addr b ∈ profile_addrs p.
Proof.
  unfold profile_addrs. split; [|split].
  - apply elem_of_app. right. by apply list_elem_of_singleton.
  - apply elem_of_app. left. unfold table_addrs. apply elem_of_app. right.
    by apply list_elem_of_singleton.
  - intros name g Hg. split.
    + apply elem_of_app. left. apply (gate_addrs_table _ name g); [done|].
      unfold gate_addrs. rewrite !elem_of_app. right. right.
      by apply list_elem_of_singleton.
    + intros b Hb. apply elem_of_app. left.
      apply (gate_addrs_table _ name g); [done|].
      unfold gate_addrs. rewrite !elem_of_app.
      apply elem_of_app in Hb as [Hb|Hb].
      * left. by apply block_addrs_chain.
      * right. left. by apply block_addrs_chain.
Qed.

Lemma inv_disabled_fp hmt cs s :
  process_inv hmt cs s →
  vips__thread_profile s = false → vips__thread_fp s = None.
Proof.
  intros Hinv Hflag. destruct (vips__thread_fp s) as [fp|] eqn:Hfp; [|done].
  destruct (sink_fp _ (inv_sink _ _ _ Hinv)) as (Hflag' & _);
    [by rewrite Hfp|congruence].
Qed.

(** ** Teardown *)

(** C5: after any calls, the exit of a thread with a profile returns; when
    the log is open it writes the profile between taking and releasing the
    lock and then frees, and when the log is not open it only frees; what
    it frees is the profile, its table, every gate in the table and every
    block of both chains of every gate, each a live allocation and each
    exactly once; the slot of the thread is empty afterwards; and with the
    enable flag unset the log is never open. *)
Theorem teardown_releases hmt cs s0 s self p :
  initial s0 →
  run hmt cs s0 = Ok (tt, s) →
  private_values s !! self = Some p →
  ∃ s',
    g_thread_exit self s = Ok (tt, s') ∧
    effects s' =
      effects s ++
      match vips__thread_fp s with
      | Some _ =>
          [MutexLock] ++ (Fprintf <$> profile_save_calls p) ++ [MutexUnlock]
      | None => []
      end ++
      (Free <$> profile_addrs p) ∧
    NoDup (profile_addrs p) ∧
    (∀ a, a ∈ profile_addrs p → a ∈ allocated s) ∧
    allocated s' = allocated s ∖ list_to_set (profile_addrs p) ∧
    private_values s' = delete self (private_values s) ∧
    (profile_addr p ∈ profile_addrs p ∧
     tbl_addr (profile_gates p) ∈ profile_addrs p ∧
     ∀ name g, tbl_entries (profile_gates p) !! name = Some g →
       gate_addr g ∈ profile_addrs p ∧
       ∀ b, b ∈ chain_blocks (gate_start g) ++ chain_blocks (gate_stop g) →
            blk_addr b ∈ profile_addrs p) ∧
    (vips__thread_profile s = false → vips__thread_fp s = None).
Proof.
  intros Hinit Hrun Hp. pose proof (run_inv hmt cs s0 s Hinit Hrun) as Hinv.
  eexists. split; [by apply (thread_exit_attached hmt cs)|].
  destruct (memory_inv_profile s self p) as [Hnodup Hlive];
    [by eapply inv_memory|done|].
  split; [simpl; by rewrite <-app_assoc|].
  split; [done|]. split; [done|]. split; [done|]. split; [done|].
  split; [apply profile_addrs_cover|]. by apply (inv_disabled_fp hmt cs).
Qed.

(** C10: after any calls, a thread with a profile that exits while the log
    is not open, because the stop call closed it or because it was never
    opened, frees its profile and does nothing else: no lock, no write, no
    error.  The stop call closes the log when the enable flag is set and
    the log is open and leaves it NULL, and does nothing otherwise; over a
    whole run the log is closed at most once, and never with the flag
    unset. *)
Theorem teardown_without_stream hmt cs s0 s :
  initial s0 →
  run hmt cs s0 = Ok (tt, s) →
  (∀ self p,
     private_values s !! self = Some p →
     vips__thread_fp s = None →
     ∃ s', g_thread_exit self s = Ok (tt, s') ∧
           effects s' = effects s ++ (Free <$> profile_addrs p) ∧
           allocated s' = allocated s ∖ list_to_set (profile_addrs p) ∧
           private_values s' = delete self (private_values s) ∧
           vips__thread_fp s' = None) ∧
  (∃ s1, vips__thread_profile_stop s = Ok (tt, s1) ∧
         (vips__thread_profile s = true →
            vips__thread_fp s1 = None ∧
            effects s1 = effects s ++
                         match vips__thread_fp s with
                         | Some _ => [Fclose]
                         | None => []
                         end) ∧
         (vips__thread_profile s = false → s1 = s)) ∧
  (count is_close (effects s) ≤ 1)%nat ∧
  (vips__thread_profile s = false → count is_close (effects s) = 0%nat).
Proof.
  intros Hinit Hrun. pose proof (run_inv hmt cs s0 s Hinit Hrun) as Hinv.
  split; [|split; [|split]].
  - intros self p Hp Hfp. eexists.
    split; [by apply (thread_exit_attached hmt cs)|].
    rewrite Hfp. simpl. by rewrite app_nil_r.
  - eexists. split; [apply profile_stop_spec|]. split.
    + intros ->. destruct (vips__thread_fp s) as [fp|] eqn:Hfp; simpl.
      * done.
      * by rewrite app_nil_r.
    + by intros ->.
  - destruct (inv_sink _ _ _ Hinv) as [_ _ Hopens _ Hcloses _].
    rewrite Hopens in Hcloses.
    destruct (vips__thread_profile s && once s); lia.
  - intros Hflag. destruct (inv_sink _ _ _ Hinv) as [_ _ Hopens _ Hcloses _].
    rewrite Hopens, Hflag in Hcloses. simpl in Hcloses. lia.
Qed.

(** ** The text of a dump *)

(** A chain that fits one block is saved as one line. *)
Lemma block_save_calls_one_line b :
  block_wf b →
  (length (chain_entries b) ≤ Z.to_nat VIPS_GATE_SIZE)%nat →
  block_save_calls b =
    (FmtTime <$> reverse (chain_entries b)) ++ [FmtNewline].
Proof.
  intros Hwf Hlen. pose proof Hwf as (Hi & Htime & Hprev)%block_wf_unfold.
  destruct b as [a [p|] t i]; simpl in *.
  - destruct Hprev as (Hone & Hfull & Hp).
    pose proof Hp as (_ & Hptime & _)%block_wf_unfold.
    assert (Z.to_nat VIPS_GATE_SIZE ≤ length (chain_entries p))%nat as Hp_len.
    { destruct p as [pa pp pt pi]. simpl in *. rewrite length_app.
      unfold block_entries. simpl. rewrite length_take. lia. }
    rewrite length_app in Hlen. unfold block_entries in Hlen at 1.
    simpl in Hlen. rewrite length_take in Hlen. lia.
  - done.
Qed.

Lemma gate_names_keys p :
  profile_wf p →
  gate_name <$> g_hash_table_values (profile_gates p) =
    (map_to_list (tbl_entries (profile_gates p))).*1.
Proof.
  intros Hwf. unfold g_hash_table_values. rewrite <-list_fmap_compose.
  apply list_fmap_ext. intros idx [name g] Hin. simpl.
  apply list_elem_of_lookup_2, elem_of_map_to_list in Hin.
  by destruct (Hwf name g Hin) as (-> & _).
Qed.

Lemma profile_view_keys p :
  (map_to_list (profile_view p)).*1 =
    (map_to_list (tbl_entries (profile_gates p))).*1.
Proof.
  unfold profile_view. rewrite map_to_list_fmap, <-list_fmap_compose.
  apply list_fmap_ext. by intros idx [name g] _.
Qed.

Lemma gate_save_calls_times name g :
  gate_wf name g →
  fprintf_times (block_save_calls (gate_start g)) = reverse (gate_view g).1 ∧
  fprintf_times (block_save_calls (gate_stop g)) = reverse (gate_view g).2 ∧
  ((length (gate_view g).1 ≤ Z.to_nat VIPS_GATE_SIZE)%nat →
   block_save_calls (gate_start g) =
     (FmtTime <$> reverse (gate_view g).1) ++ [FmtNewline]) ∧
  ((length (gate_view g).2 ≤ Z.to_nat VIPS_GATE_SIZE)%nat →
   block_save_calls (gate_stop g) =
     (FmtTime <$> reverse (gate_view g).2) ++ [FmtNewline]).
Proof.
  intros (_ & Hstart & Hstop). unfold gate_view. simpl.
  split; [apply fprintf_times_block_save|].
  split; [apply fprintf_times_block_save|].
  split; intros Hlen; by apply block_save_calls_one_line.
Qed.

Lemma profile_view_single p G v :
  profile_wf p →
  profile_view p = {[G := v]} →
  ∃ g, g_hash_table_values (profile_gates p) = [g] ∧
       gate_name g = G ∧ gate_view g = v ∧ gate_wf G g.
Proof.
  intros Hwf Hview. unfold g_hash_table_values.
  pose proof (map_to_list_fmap gate_view (tbl_entries (profile_gates p)))
    as Hlist.
  unfold profile_view in Hview. rewrite Hview, map_to_list_singleton in Hlist.
  destruct (map_to_list (tbl_entries (profile_gates p)))
    as [|[name g] [|more rest]] eqn:Hentries; simpl in Hlist; try done.
  injection Hlist as -> ->. exists g. split; [done|].
  assert (tbl_entries (profile_gates p) !! name = Some g) as Hg.
  { apply elem_of_map_to_list. rewrite Hentries. by left. }
  destruct (Hwf name g Hg) as (Hname & Hrest). split; [done|]. split; [done|].
  by split.
Qed.

(** C4: after any calls, a thread with a profile that exits while the log
    is open writes, between taking and releasing the lock, one thread
    header and then one section for each gate of its table, in the order of
    traversal: the gate line, the start line, the saved start chain, the
    stop line, the saved stop chain.  The gates of the table are the gates
    that the calls of the thread named since its attach, each once, and the
    timestamps of a saved chain are those the calls recorded for that gate
    and direction, last one first, on one line when they fit one block.  A
    thread that recorded one start and one stop on one gate writes exactly
    the header, the gate line, the start line with the one start time and
    the stop line with the one stop time. *)
Theorem teardown_dump hmt cs s0 s self p fp :
  initial s0 →
  run hmt cs s0 = Ok (tt, s) →
  private_values s !! self = Some p →
  vips__thread_fp s = Some fp →
  ∃ s' record,
    g_thread_exit self s = Ok (tt, s') ∧
    effects s' =
      effects s ++
      [MutexLock; Fprintf (FmtThread (profile_name p) (profile_addr p))] ++
      (Fprintf <$>
         (g_hash_table_values (profile_gates p) ≫= λ g,
            [FmtGate (gate_name g); FmtStart] ++
            block_save_calls (gate_start g) ++
            [FmtStop] ++
            block_save_calls (gate_stop g))) ++
      [MutexUnlock] ++
      (Free <$> profile_addrs p) ∧
    logged hmt cs !! self = Some record ∧
    gate_name <$> g_hash_table_values (profile_gates p)
      = (map_to_list record).*1 ∧
    NoDup (gate_name <$> g_hash_table_values (profile_gates p)) ∧
    (∀ g, g ∈ g_hash_table_values (profile_gates p) →
       ∃ starts stops,
         record !! gate_name g = Some (starts, stops) ∧
         fprintf_times (block_save_calls (gate_start g)) = reverse starts ∧
         fprintf_times (block_save_calls (gate_stop g)) = reverse stops ∧
         ((length starts ≤ Z.to_nat VIPS_GATE_SIZE)%nat →
          block_save_calls (gate_start g) =
            (FmtTime <$> reverse starts) ++ [FmtNewline]) ∧
         ((length stops ≤ Z.to_nat VIPS_GATE_SIZE)%nat →
          block_save_calls (gate_stop g) =
            (FmtTime <$> reverse stops) ++ [FmtNewline])) ∧
    (∀ G t1 t2,
       record = {[G := ([t1], [t2])]} →
       effects s' =
         effects s ++
         [MutexLock;
          Fprintf (FmtThread (profile_name p) (profile_addr p));
          Fprintf (FmtGate G);
          Fprintf FmtStart; Fprintf (FmtTime t1); Fprintf FmtNewline;
          Fprintf FmtStop; Fprintf (FmtTime t2); Fprintf FmtNewline;
          MutexUnlock] ++
         (Free <$> profile_addrs p)).
Proof.
  intros Hinit Hrun Hp Hfp.
  pose proof (run_inv hmt cs s0 s Hinit Hrun) as Hinv.
  pose proof (inv_wf _ _ _ Hinv _ _ Hp) as Hwf.
  assert (effects s ++ teardown_writes (Some fp) p ++ (Free <$> profile_addrs p)
            = effects s ++
              [MutexLock; Fprintf (FmtThread (profile_name p) (profile_addr p))] ++
              (Fprintf <$> (g_hash_table_values (profile_gates p) ≫= gate_save_calls)) ++
              [MutexUnlock] ++ (Free <$> profile_addrs p)) as Heff.
  { unfold teardown_writes, profile_save_calls.
    rewrite fmap_cons. simpl. by rewrite <-!app_assoc. }
  eexists _, (profile_view p).
  split; [by apply (thread_exit_attached hmt cs)|].
  split.
  { simpl. rewrite Hfp, <-app_assoc. exact Heff. }
  split.
  { by rewrite (logged_view_lookup _ _ _ _ Hinv), Hp. }
  split.
  { by rewrite gate_names_keys, profile_view_keys. }
  split.
  { rewrite gate_names_keys by done. apply NoDup_fst_map_to_list. }
  split.
  { intros g Hg. unfold g_hash_table_values in Hg.
    apply list_elem_of_fmap in Hg as ([name g'] & -> & Hin).
    apply elem_of_map_to_list in Hin. simpl.
    pose proof (Hwf name g' Hin) as Hgwf. pose proof Hgwf as (Hname & _).
    exists (gate_view g').1, (gate_view g').2. split.
    { unfold profile_view. rewrite lookup_fmap, Hname, Hin. done. }
    by apply (gate_save_calls_times name). }
  intros G t1 t2 Hrecord.
  destruct (profile_view_single p G _ Hwf Hrecord)
    as (g & Hvalues & Hname & Hview & Hgwf).
  destruct (gate_save_calls_times G g Hgwf) as (_ & _ & Hstart & Hstop).
  rewrite Hview in Hstart, Hstop. simpl in Hstart, Hstop.
  simpl. rewrite Hfp, <-app_assoc, Heff, Hvalues. simpl.
  unfold gate_save_calls. rewrite Hname, Hstart, Hstop, app_nil_r.
  - done.
  - unfold VIPS_GATE_SIZE. lia.
  - unfold VIPS_GATE_SIZE. lia.
Qed.

(** ** No call runs into undefined behaviour *)

Lemma step_safe hmt cs c s : process_inv hmt cs s → step hmt c s ≠ Undefined.
Proof.
  intros Hinv. destruct c as [self name|self clk name|self clk name|self|];
    simpl.
  - destruct (g_once vips__thread_profile_init s) as [[[] s1]| |msg| |]
      eqn:Honce.
    + pose proof (g_once_init_ok _ _ Honce) as ->.
      pose proof (process_inv_once_state _ _ _ Hinv) as Hinv1.
      destruct (private_values s !! self) as [p|] eqn:Hp.
      * rewrite (attach_twice self name s _ p Honce); [done| |].
        -- apply (sink_key _ (inv_sink _ _ _ Hinv1)), once_state_once.
        -- by rewrite once_state_private.
      * rewrite (attach_ok self name s _ Honce); [done|].
        apply profile_get_unattached;
          [by apply (inv_once_state_key hmt cs)|]. by rewrite once_state_private.
    + rewrite g_once_init_spec in Honce. destruct (once s); [done|].
      by destruct (vips__thread_profile s && negb (log_writable s)).
    + by rewrite (attach_exit _ _ _ _ Honce).
    + rewrite g_once_init_spec in Honce. destruct (once s); [done|].
      by destruct (vips__thread_profile s && negb (log_writable s)).
    + unfold vips__thread_profile_attach. simpl. by rewrite Honce.
  - destruct (private_values s !! self) as [p|] eqn:Hp.
    + destruct (gate_start_spec hmt self clk name p s)
        as (news & p' & Hspec & _);
        [by eapply inv_attached_key|done|by eapply inv_wf|].
      by rewrite Hspec.
    + rewrite gate_start_noprofile by done.
      by destruct (vips_thread_profile_key s).
  - destruct (private_values s !! self) as [p|] eqn:Hp.
    + destruct (gate_stop_spec hmt self clk name p s)
        as (news & p' & Hspec & _);
        [by eapply inv_attached_key|done|by eapply inv_wf|].
      by rewrite Hspec.
    + rewrite gate_stop_noprofile by done.
      by destruct (vips_thread_profile_key s).
  - destruct (private_values s !! self) as [p|] eqn:Hp.
    + by rewrite (thread_exit_attached hmt cs self p).
    + by rewrite thread_exit_unattached by done.
  - by rewrite profile_stop_spec.
Qed.

Lemma run_safe_from hmt cs0 cs s :
  process_inv hmt cs0 s → run hmt cs s ≠ Undefined.
Proof.
  revert cs0 s. induction cs as [|c cs IH]; intros cs0 s Hinv; [done|].
  unfold run. simpl.
  destruct (step hmt c s) as [[[] s1]| |msg| |] eqn:Hstep; try done.
  - apply (IH (cs0 ++ [c])). by apply (step_inv hmt cs0 c s).
  - by apply (step_safe hmt cs0 c s) in Hstep.
Qed.

(** ** The fill count of a block *)

(** C6: in every state that calls lead to, every block of every chain has
    its fill count between 0 and [VIPS_GATE_SIZE] and an array of
    [VIPS_GATE_SIZE] slots, and no further calls run into undefined
    behaviour such as a store outside an array.  Recording into such a
    chain with room in the current block stores at the fill count, which is
    below [VIPS_GATE_SIZE], and adds one to it, leaving the filled slots
    and the blocks behind as they are; with the current block full it puts
    a new block in front, which [vips_thread_gate_block_add] makes with
    fill count 0 and the old current block, unchanged, as its [prev], and
    stores into slot 0 of the new block. *)
Theorem fill_count_invariant hmt cs s0 s :
  initial s0 →
  run hmt cs s0 = Ok (tt, s) →
  (∀ cs', run hmt cs' s ≠ Undefined) ∧
  (∀ b s1,
     vips_thread_gate_block_add b s1 =
       Ok (Block (g_new_addr s1) (Some b) zeroed_times 0, g_new_state s1) ∧
     (g_new_addr s1 ∉ allocated s1) ∧
     length zeroed_times = Z.to_nat VIPS_GATE_SIZE) ∧
  ∀ self p name g chain,
    private_values s !! self = Some p →
    tbl_entries (profile_gates p) !! name = Some g →
    chain = gate_start g ∨ chain = gate_stop g →
    (∀ b, b ∈ chain_blocks chain →
          0 ≤ blk_i b ≤ VIPS_GATE_SIZE ∧
          length (blk_time b) = Z.to_nat VIPS_GATE_SIZE) ∧
    ∀ t s1,
      (blk_i chain < VIPS_GATE_SIZE ∧
       gate_block_record chain t s1 =
         Ok (Block (blk_addr chain) (blk_prev chain)
               (<[Z.to_nat (blk_i chain) := t]> (blk_time chain))
               (blk_i chain + 1), s1) ∧
       take (Z.to_nat (blk_i chain))
         (<[Z.to_nat (blk_i chain) := t]> (blk_time chain)) =
         block_entries chain) ∨
      (blk_i chain = VIPS_GATE_SIZE ∧
       gate_block_record chain t s1 =
         Ok (Block (g_new_addr s1) (Some chain)
               (<[0%nat := t]> zeroed_times) 1, g_new_state s1)).
Proof.
  intros Hinit Hrun. pose proof (run_inv hmt cs s0 s Hinit Hrun) as Hinv.
  split; [intros cs'; by apply (run_safe_from hmt cs)|]. split.
  { intros b s1. split; [done|]. split; [|apply length_zeroed_times].
    unfold g_new_addr. apply is_fresh. }
  intros self p name g chain Hp Hg Hchain.
  assert (block_wf chain) as Hwf.
  { destruct (inv_wf _ _ _ Hinv _ _ Hp name g Hg) as (_ & Hstart & Hstop).
    by destruct Hchain as [-> | ->]. }
  split.
  - clear Hchain. revert Hwf.
    induction chain as [a t i|a q t i IH] using block_chain_ind;
      intros (Hi & Hlen & Hprev) b Hb; simpl in Hb.
    + by apply list_elem_of_singleton in Hb as ->.
    + apply elem_of_cons in Hb as [->|Hb]; [done|].
      apply IH; [apply Hprev|done].
  - intros t s1. rewrite gate_block_record_spec by done.
    pose proof Hwf as (Hi & Hlen & _)%block_wf_unfold.
    unfold block_recorded.
    destruct (decide (VIPS_GATE_SIZE ≤ blk_i chain)) as [Hfull|Hroom].
    + right. split; [lia|done].
    + left. split; [lia|]. split; [done|]. by rewrite take_insert_ge.
Qed.

(** ** Attaching *)

(** C7, as the code has it: after any calls, attaching a thread that has a
    profile fails the assertion; attaching a thread that has none returns
    with a fresh profile of that name and an empty table in the slot of the
    thread, on two new allocations, provided the one-time initialisation
    has already run, or the enable flag is unset, or the log can be
    created.  In the case left, the first attach of a process whose enable
    flag is set and whose log cannot be created, the call ends in
    [vips_error_exit] with "unable to create profile log", whatever the
    thread holds, and the process is over with no profile installed. *)
Theorem attach_precondition hmt cs s0 s :
  initial s0 →
  run hmt cs s0 = Ok (tt, s) →
  (∀ self name p,
     private_values s !! self = Some p →
     vips__thread_profile_attach self name s = AssertionFailed) ∧
  (∀ self name,
     private_values s !! self = None →
     once s = true ∨ vips__thread_profile s = false ∨ log_writable s = true →
     ∃ s' a a',
       vips__thread_profile_attach self name s = Ok (tt, s') ∧
       private_values s' =
         <[self := Profile a name (HashTable a' ∅)]> (private_values s) ∧
       (a ∉ allocated s) ∧ (a' ∉ allocated s) ∧ a ≠ a' ∧
       allocated s' = {[a; a']} ∪ allocated s) ∧
  (∀ self name,
     once s = false →
     vips__thread_profile s = true →
     log_writable s = false →
     vips__thread_profile_attach self name s =
       ErrorExit "unable to create profile log").
Proof.
  intros Hinit Hrun. pose proof (run_inv hmt cs s0 s Hinit Hrun) as Hinv.
  split; [|split].
  - intros self name p Hp.
    pose proof (inv_attached _ _ _ Hinv _ _ Hp) as Honce.
    apply (attach_twice self name s s p); [|by eapply inv_attached_key|done].
    by rewrite g_once_init_spec, Honce.
  - intros self name Hp Hcan.
    assert (g_once vips__thread_profile_init s = Ok (tt, once_state s))
      as Honce.
    { rewrite g_once_init_spec. unfold once_state.
      destruct (once s) eqn:Hdone; [done|].
      destruct Hcan as [?|[-> | ->]]; [done|done|].
      by rewrite andb_false_r. }
    set (s1 := once_state s).
    exists (attached_state self name s1), (g_new_addr s1),
      (g_new_addr (g_new_state s1)).
    split.
    { apply (attach_ok self name s s1 Honce), profile_get_unattached;
        [by apply (inv_once_state_key hmt cs)|].
      unfold s1. by rewrite once_state_private. }
    destruct (fresh_for_app [g_new_addr s1] [g_new_addr (g_new_state s1)] s1)
      as [Hnodup Hfresh].
    { apply fresh_for_g_new. }
    { rewrite <-g_new_state_allocated. apply fresh_for_g_new. }
    unfold s1 in *. rewrite once_state_allocated in Hfresh.
    split; [simpl; by rewrite once_state_private|].
    split; [apply Hfresh; set_solver|]. split; [apply Hfresh; set_solver|].
    split.
    { apply NoDup_cons in Hnodup as [Hne _]. set_solver. }
    simpl. rewrite once_state_allocated. set_solver.
  - intros self name Honce Hflag Hwritable. apply attach_exit.
    by rewrite g_once_init_spec, Honce, Hflag, Hwritable.
Qed.

(** ** The enable flag and the log over a run *)

Lemma step_flag hmt cs c s s' :
  process_inv hmt cs s →
  step hmt c s = Ok (tt, s') →
  vips__thread_profile s' = vips__thread_profile s ∧
  log_writable s' = log_writable s.
Proof.
  intros Hinv Hstep.
  destruct c as [self name|self clk name|self clk name|self|];
    simpl in Hstep.
  - destruct (attach_inv hmt cs self name s s' Hinv Hstep) as (_ & -> & _).
    simpl. destruct s as [flag key fp done pv al writable es].
    unfold once_state. simpl. by destruct done, flag.
  - destruct (private_values s !! self) as [p|] eqn:Hp.
    + destruct (gate_start_spec hmt self clk name p s)
        as (news & p' & Hspec & _);
        [by eapply inv_attached_key|done|by eapply inv_wf|].
      rewrite Hspec in Hstep. by injection Hstep as <-.
    + apply gate_start_unattached in Hstep as ->; [|done]. done.
  - destruct (private_values s !! self) as [p|] eqn:Hp.
    + destruct (gate_stop_spec hmt self clk name p s)
        as (news & p' & Hspec & _);
        [by eapply inv_attached_key|done|by eapply inv_wf|].
      rewrite Hspec in Hstep. by injection Hstep as <-.
    + apply gate_stop_unattached in Hstep as ->; [|done]. done.
  - destruct (private_values s !! self) as [p|] eqn:Hp.
    + rewrite (thread_exit_attached hmt cs self p) in Hstep by done.
      by injection Hstep as <-.
    + rewrite thread_exit_unattached in Hstep by done.
      by injection Hstep as <-.
  - rewrite profile_stop_spec in Hstep. injection Hstep as <-.
    destruct (vips__thread_profile s) eqn:Hflag; [|done].
    by destruct (vips__thread_fp s).
Qed.

Lemma run_flag_from hmt cs0 cs s s' :
  process_inv hmt cs0 s →
  run hmt cs s = Ok (tt, s') →
  vips__thread_profile s' = vips__thread_profile s ∧
  log_writable s' = log_writable s.
Proof.
  revert cs0 s. induction cs as [|c cs IH]; intros cs0 s Hinv Hrun.
  - by injection Hrun as <-.
  - unfold run in Hrun. simpl in Hrun.
    destruct (step hmt c s) as [[[] s1]| |msg| |] eqn:Hstep; try done.
    destruct (step_flag hmt cs0 c s s1 Hinv Hstep) as [<- <-].
    apply (IH (cs0 ++ [c])); [|done]. by apply (step_inv hmt cs0 c s).
Qed.

(** C8: after any calls from the start of the process, whichever threads
    made them, the one-time initialisation has run exactly when some call
    attached, the enable flag is the one the process started with, and the
    log has been opened once if the flag is set and the initialisation has
    run and not at all otherwise, each time as "vips-profile.txt" with
    truncation.  With the flag unset the log is not open and nothing has
    been written to it.  An attach that finds the initialisation not yet
    run and the flag set opens the log and goes on when the log can be
    created, and ends the process through [vips_error_exit] when it
    cannot; an attach that finds it run opens nothing. *)
Theorem one_time_initialisation hmt cs s0 s :
  initial s0 →
  run hmt cs s0 = Ok (tt, s) →
  (once s = true ↔ Exists is_attach cs) ∧
  vips__thread_profile s = vips__thread_profile s0 ∧
  count is_open (effects s) =
    (if vips__thread_profile s && once s then 1%nat else 0%nat) ∧
  Forall (λ e, is_open e = true →
               e = FileOpenWrite "vips-profile.txt" true true) (effects s) ∧
  (vips__thread_profile s = false →
   vips__thread_fp s = None ∧ count is_open (effects s) = 0%nat ∧
   count is_fprintf (effects s) = 0%nat) ∧
  (∀ self name,
     once s = false → vips__thread_profile s = true →
     if log_writable s
     then ∃ s', vips__thread_profile_attach self name s = Ok (tt, s') ∧
                vips__thread_fp s' = Some ProfileLog ∧ once s' = true ∧
                count is_open (effects s') = 1%nat
     else vips__thread_profile_attach self name s =
            ErrorExit "unable to create profile log") ∧
  (∀ self name s',
     once s = true →
     vips__thread_profile_attach self name s = Ok (tt, s') →
     vips__thread_fp s' = vips__thread_fp s ∧
     count is_open (effects s') = count is_open (effects s)).
Proof.
  intros Hinit Hrun. pose proof (run_inv hmt cs s0 s Hinit Hrun) as Hinv.
  pose proof (inv_sink _ _ _ Hinv) as [Hkey Hfp Hopens Hmode Hcloses Hdis].
  split; [by apply (run_once hmt cs s0)|].
  split.
  { by destruct (run_flag_from hmt [] cs s0 s (initial_inv hmt s0 Hinit) Hrun). }
  split; [done|]. split; [done|]. split.
  { intros Hflag. split; [by apply (inv_disabled_fp hmt cs)|].
    split; [by rewrite Hopens, Hflag|by apply Hdis]. }
  split.
  - intros self name Honce Hflag.
    assert (private_values s !! self = None) as Hp.
    { destruct (private_values s !! self) as [p|] eqn:Hp; [|done].
      pose proof (inv_attached _ _ _ Hinv _ _ Hp). congruence. }
    destruct (log_writable s) eqn:Hwritable.
    + assert (g_once vips__thread_profile_init s = Ok (tt, once_state s))
        as Hinit_ok.
      { by rewrite g_once_init_spec, Honce, Hflag, Hwritable. }
      exists (attached_state self name (once_state s)).
      split.
      { apply (attach_ok self name s _ Hinit_ok), profile_get_unattached;
        [by apply (inv_once_state_key hmt cs)|].
        by rewrite once_state_private. }
      unfold once_state. rewrite Honce, Hflag. simpl.
      split; [done|]. split; [done|].
      rewrite !count_app, !count_cons, Hopens, Hflag, Honce. done.
    + apply attach_exit.
      by rewrite g_once_init_spec, Honce, Hflag, Hwritable.
  - intros self name s' Honce Hattach.
    destruct (attach_inv hmt cs self name s s' Hinv Hattach) as (_ & -> & _).
    unfold once_state. rewrite Honce. simpl. split; [done|].
    rewrite count_app, !count_cons, count_nil. simpl. lia.
Qed.

(** ** The clock *)

(** C9 fails in a build without [HAVE_MONOTONIC_TIME]: there
    [vips_get_time] is the microseconds within the current second, so it
    drops from 999999 to 0 when the second changes, while with
    [HAVE_MONOTONIC_TIME] it is the monotonic clock of GLib. *)
Theorem vips_get_time_wraps :
  let before := MkClock 5000000 (TimeVal 10 999999) in
  let after := MkClock 5000001 (TimeVal 11 0) in
  tv_sec (g_get_current_time before) * 1000000
    + tv_usec (g_get_current_time before)
  < tv_sec (g_get_current_time after) * 1000000
    + tv_usec (g_get_current_time after) ∧
  g_get_monotonic_time before < g_get_monotonic_time after ∧
  vips_get_time false before = 999999 ∧
  vips_get_time false after = 0 ∧
  vips_get_time false after < vips_get_time false before ∧
  (∀ clk, vips_get_time true clk = g_get_monotonic_time clk).
Proof. simpl. repeat split; lia. Qed.

(** ** The statements on a concrete run *)

Lemma demo_initial writable : initial (new_process true writable).
Proof. by repeat split. Qed.

Lemma demo_run :
  run true demo_calls (new_process true true) = Ok (tt, demo_state).
Proof. vm_compute. reflexivity. Qed.

Lemma demo_attached : private_values demo_state !! 7%nat = Some demo_profile.
Proof. vm_compute. reflexivity. Qed.

Lemma demo_open : vips__thread_fp demo_state = Some ProfileLog.
Proof. vm_compute. reflexivity. Qed.

Lemma demo_stopped_run :
  run true (demo_calls ++ [ProfileStop]) (new_process true true)
    = Ok (tt, demo_stopped).
Proof. vm_compute. reflexivity. Qed.

Lemma teardown_dump_witness :
  initial (new_process true true) ∧
  run true demo_calls (new_process true true) = Ok (tt, demo_state) ∧
  private_values demo_state !! 7%nat = Some demo_profile ∧
  vips__thread_fp demo_state = Some ProfileLog ∧
  ∃ s' record,
    g_thread_exit 7%nat demo_state = Ok (tt, s') ∧
    logged true demo_calls !! 7%nat = Some record ∧
    (∀ G t1 t2,
       record = {[G := ([t1], [t2])]} →
       effects s' =
         effects demo_state ++
         [MutexLock;
          Fprintf (FmtThread (profile_name demo_profile)
                     (profile_addr demo_profile));
          Fprintf (FmtGate G);
          Fprintf FmtStart; Fprintf (FmtTime t1); Fprintf FmtNewline;
          Fprintf FmtStop; Fprintf (FmtTime t2); Fprintf FmtNewline;
          MutexUnlock] ++
         (Free <$> profile_addrs demo_profile)).
Proof.
  split; [apply demo_initial|]. split; [apply demo_run|].
  split; [apply demo_attached|]. split; [apply demo_open|].
  destruct (teardown_dump true demo_calls (new_process true true) demo_state
              7%nat demo_profile ProfileLog
              (demo_initial true) demo_run demo_attached demo_open)
    as (s' & record & Hexit & _ & Hlogged & _ & _ & _ & Hone).
  exists s', record. split; [exact Hexit|]. split; [exact Hlogged|exact Hone].
Defined.

Lemma teardown_releases_witness :
  initial (new_process true true) ∧
  run true demo_calls (new_process true true) = Ok (tt, demo_state) ∧
  private_values demo_state !! 7%nat = Some demo_profile ∧
  ∃ s',
    g_thread_exit 7%nat demo_state = Ok (tt, s') ∧
    NoDup (profile_addrs demo_profile) ∧
    allocated s' =
      allocated demo_state ∖ list_to_set (profile_addrs demo_profile) ∧
    private_values s' = delete 7%nat (private_values demo_state).
Proof.
  split; [apply demo_initial|]. split; [apply demo_run|].
  split; [apply demo_attached|].
  destruct (teardown_releases true demo_calls (new_process true true)
              demo_state 7%nat demo_profile
              (demo_initial true) demo_run demo_attached)
    as (s' & Hexit & _ & Hnodup & _ & Halloc & Hslot & _).
  exists s'. split; [exact Hexit|]. split; [exact Hnodup|].
  split; [exact Halloc|exact Hslot].
Defined.

Lemma fill_count_invariant_witness :
  initial (new_process true true) ∧
  run true demo_calls (new_process true true) = Ok (tt, demo_state) ∧
  (∀ cs', run true cs' demo_state ≠ Undefined) ∧
  ∀ self p name g chain,
    private_values demo_state !! self = Some p →
    tbl_entries (profile_gates p) !! name = Some g →
    chain = gate_start g ∨ chain = gate_stop g →
    ∀ b, b ∈ chain_blocks chain →
         0 ≤ blk_i b ≤ VIPS_GATE_SIZE ∧
         length (blk_time b) = Z.to_nat VIPS_GATE_SIZE.
Proof.
  split; [apply demo_initial|]. split; [apply demo_run|].
  destruct (fill_count_invariant true demo_calls (new_process true true)
              demo_state (demo_initial true) demo_run)
    as (Hsafe & _ & Hblocks).
  split; [exact Hsafe|].
  intros self p name g chain Hp Hg Hchain.
  exact (proj1 (Hblocks self p name g chain Hp Hg Hchain)).
Defined.

Lemma attach_precondition_witness :
  initial (new_process true true) ∧
  run true demo_calls (new_process true true) = Ok (tt, demo_state) ∧
  (∀ self name p,
     private_values demo_state !! self = Some p →
     vips__thread_profile_attach self name demo_state = AssertionFailed) ∧
  (∀ self name,
     private_values demo_state !! self = None →
     once demo_state = true ∨ vips__thread_profile demo_state = false ∨
     log_writable demo_state = true →
     ∃ s' a a',
       vips__thread_profile_attach self name demo_state = Ok (tt, s') ∧
       private_values s' =
         <[self := Profile a name (HashTable a' ∅)]>
           (private_values demo_state) ∧
       (a ∉ allocated demo_state) ∧ (a' ∉ allocated demo_state) ∧ a ≠ a' ∧
       allocated s' = {[a; a']} ∪ allocated demo_state) ∧
  initial (new_process true false) ∧
  run true [] (new_process true false) = Ok (tt, new_process true false) ∧
  (∀ self name,
     vips__thread_profile_attach self name (new_process true false) =
       ErrorExit "unable to create profile log").
Proof.
  split; [apply demo_initial|]. split; [apply demo_run|].
  destruct (attach_precondition true demo_calls (new_process true true)
              demo_state (demo_initial true) demo_run)
    as (Htwice & Hfresh & _).
  split; [exact Htwice|]. split; [exact Hfresh|].
  split; [apply demo_initial|]. split; [reflexivity|].
  intros self name.
  exact (proj2 (proj2
           (attach_precondition true [] (new_process true false)
              (new_process true false) (demo_initial false) eq_refl))
           self name eq_refl eq_refl eq_refl).
Defined.

(** C7 as stated fails: the first attach of a process whose enable flag is
    set and whose log cannot be created finds no profile on the thread and
    yet does not return. *)
Lemma attach_first_may_exit :
  ¬ (∀ hmt cs s0 s self name,
       initial s0 →
       run hmt cs s0 = Ok (tt, s) →
       private_values s !! self = None →
       ∃ s', vips__thread_profile_attach self name s = Ok (tt, s')).
Proof.
  intros Hclaim.
  destruct (Hclaim true [] (new_process true false) (new_process true false)
              0%nat "main" (demo_initial false) eq_refl eq_refl)
    as (s' & Hattach).
  vm_compute in Hattach. discriminate Hattach.
Qed.

Lemma one_time_initialisation_witness :
  initial (new_process true true) ∧
  run true demo_calls (new_process true true) = Ok (tt, demo_state) ∧
  (once demo_state = true ↔ Exists is_attach demo_calls) ∧
  count is_open (effects demo_state) =
    (if vips__thread_profile demo_state && once demo_state
     then 1%nat else 0%nat) ∧
  (∀ self name s',
     once demo_state = true →
     vips__thread_profile_attach self name demo_state = Ok (tt, s') →
     vips__thread_fp s' = vips__thread_fp demo_state ∧
     count is_open (effects s') = count is_open (effects demo_state)).
Proof.
  split; [apply demo_initial|]. split; [apply demo_run|].
  destruct (one_time_initialisation true demo_calls (new_process true true)
              demo_state (demo_initial true) demo_run)
    as (Honce & _ & Hopens & _ & _ & _ & Hagain).
  split; [exact Honce|]. split; [exact Hopens|exact Hagain].
Defined.

Lemma teardown_without_stream_witness :
  initial (new_process true true) ∧
  run true (demo_calls ++ [ProfileStop]) (new_process true true)
    = Ok (tt, demo_stopped) ∧
  is_Some (private_values demo_stopped !! 7%nat) ∧
  vips__thread_fp demo_stopped = None ∧
  (∀ self p,
     private_values demo_stopped !! self = Some p →
     vips__thread_fp demo_stopped = None →
     ∃ s', g_thread_exit self demo_stopped = Ok (tt, s') ∧
           effects s' = effects demo_stopped ++ (Free <$> profile_addrs p) ∧
           allocated s' =
             allocated demo_stopped ∖ list_to_set (profile_addrs p) ∧
           private_values s' = delete self (private_values demo_stopped) ∧
           vips__thread_fp s' = None) ∧
  (count is_close (effects demo_stopped) ≤ 1)%nat.
Proof.
  split; [apply demo_initial|]. split; [apply demo_stopped_run|].
  split; [vm_compute; eexists; reflexivity|].
  split; [vm_compute; reflexivity|].
  destruct (teardown_without_stream true (demo_calls ++ [ProfileStop])
              (new_process true true) demo_stopped
              (demo_initial true) demo_stopped_run)
    as (Hexit & _ & Hcloses & _).
  split; [exact Hexit|exact Hcloses].
Defined.

(** The scenario of the design notes gives the log of the design notes. *)
Example scenario_log :
  ∃ s, run true scenario_calls (new_process true true) = Ok (tt, s) ∧
       log_text (effects s) = scenario_text ∧
       allocated s = ∅ ∧ private_values s = ∅.
Proof.
  eexists. split; [vm_compute; reflexivity|].
  split; [vm_compute; reflexivity|]. split; vm_compute; reflexivity.
Qed.

(** * Further properties *)

(** ** The shape of a gate call on an attached thread *)

Lemma gate_block_record_count b t s :
  block_wf b →
  ∃ news b',
    gate_block_record b t s = Ok (b', allocated_state news s) ∧
    fresh_for news s ∧ block_addrs b' = block_addrs b ++ news ∧
    block_wf b' ∧ chain_entries b' = chain_entries b ++ [t] ∧
    length news = if decide (VIPS_GATE_SIZE ≤ blk_i b) then 1%nat else 0%nat.
Proof.
  intros Hwf. rewrite gate_block_record_spec by done.
  pose proof (block_recorded_wf (g_new_addr s) b t Hwf) as Hwf'.
  pose proof (block_recorded_entries (g_new_addr s) b t Hwf) as Hent.
  unfold block_recorded in *.
  destruct (decide (VIPS_GATE_SIZE ≤ blk_i b)) as [Hfull|Hroom].
  - eexists [g_new_addr s], _. split.
    { by rewrite g_new_state_allocated. }
    split; [apply fresh_for_g_new|]. done.
  - eexists [], _. split.
    { by rewrite allocated_state_nil. }
    split; [apply fresh_for_nil|]. split.
    { destruct b. simpl. by rewrite app_nil_r. }
    done.
Qed.

Lemma fresh_block_addrs b :
  block_wf b → blk_i b = 0 → block_addrs b = [blk_addr b].
Proof.
  intros (_ & _ & Hprev)%block_wf_unfold Hi. destruct b as [a [p|] t i].
  - simpl in *. lia.
  - done.
Qed.

Lemma gate_new_count name s :
  ∃ news g,
    vips_thread_gate_new name s = Ok (g, allocated_state news s) ∧
    fresh_for news s ∧ gate_addrs g ≡ₚ news ∧ gate_wf name g ∧
    gate_view g = ([], []) ∧
    blk_i (gate_start g) = 0 ∧ blk_i (gate_stop g) = 0 ∧
    length news = 3%nat.
Proof.
  destruct (gate_new_spec name s)
    as (news & g & Hnew & Hfresh & Hperm & Hwf & Hview & Hi0 & Hi1).
  exists news, g. split; [done|]. split; [done|]. split; [done|].
  split; [done|]. split; [done|]. split; [done|]. split; [done|].
  rewrite <-Hperm. unfold gate_addrs. destruct Hwf as (_ & Hstart & Hstop).
  rewrite (fresh_block_addrs _ Hstart Hi0), (fresh_block_addrs _ Hstop Hi1).
  done.
Qed.

Lemma gate_start_shape hmt self clk name p s :
  vips_thread_profile_key s = Some ProfileKey →
  private_values s !! self = Some p →
  profile_wf p →
  ∃ news g b,
    vips__thread_gate_start hmt self clk name s =
      Ok (tt, set_private
                (<[self := Profile (profile_addr p) (profile_name p)
                             (g_hash_table_insert (profile_gates p) name
                                (set_gate_start b g))]>
                   (private_values s))
                (allocated_state news s)) ∧
    fresh_for news s ∧
    length news =
      gate_call_allocations gate_start
        (tbl_entries (profile_gates p) !! name) ∧
    match tbl_entries (profile_gates p) !! name with
    | Some g0 => g = g0
    | None => gate_view g = ([], []) ∧ gate_name g = name
    end ∧
    chain_entries b = chain_entries (gate_start g) ++ [vips_get_time hmt clk].
Proof.
  intros Hkey Hp Hwf. unfold vips__thread_gate_start.
  unfold vips_thread_profile_get, g_private_get. simpl.
  rewrite Hkey. simpl. rewrite Hp.
  unfold gate_lookup_or_new, g_hash_table_lookup, gate_call_allocations.
  destruct p as [pa pn [ta entries]]. simpl.
  unfold profile_wf in Hwf. simpl in Hwf.
  destruct (entries !! name) as [g|] eqn:Hg.
  - pose proof (Hwf name g Hg) as (Hname & Hstart & Hstop). simpl.
    destruct (gate_block_record_count (gate_start g) (vips_get_time hmt clk) s
                Hstart) as (news & b' & Hrec & Hfresh & _ & _ & Hent & Hlen).
    rewrite Hrec. simpl. by exists news, g, b'.
  - destruct (gate_new_count name s)
      as (news0 & g & Hnew & Hfresh0 & _ & Hgwf & Hview & Hi0 & _ & Hlen0).
    simpl. rewrite Hnew. simpl. pose proof Hgwf as (Hname & Hstart & Hstop).
    destruct (gate_block_record_count (gate_start g) (vips_get_time hmt clk)
                (allocated_state news0 s) Hstart)
      as (news & b' & Hrec & Hfresh & _ & _ & Hent & Hlen).
    rewrite Hrec. simpl.
    rewrite decide_False in Hlen by (rewrite Hi0; unfold VIPS_GATE_SIZE; lia).
    destruct news; [|done]. rewrite allocated_state_nil.
    unfold gate_write_back, g_private_set. simpl.
    rewrite hash_table_insert_insert. by exists news0, g, b'.
Qed.

Lemma gate_stop_shape hmt self clk name p s :
  vips_thread_profile_key s = Some ProfileKey →
  private_values s !! self = Some p →
  profile_wf p →
  ∃ news g b,
    vips__thread_gate_stop hmt self clk name s =
      Ok (tt, set_private
                (<[self := Profile (profile_addr p) (profile_name p)
                             (g_hash_table_insert (profile_gates p) name
                                (set_gate_stop b g))]>
                   (private_values s))
                (allocated_state news s)) ∧
    fresh_for news s ∧
    length news =
      gate_call_allocations gate_stop
        (tbl_entries (profile_gates p) !! name) ∧
    match tbl_entries (profile_gates p) !! name with
    | Some g0 => g = g0
    | None => gate_view g = ([], []) ∧ gate_name g = name
    end ∧
    chain_entries b = chain_entries (gate_stop g) ++ [vips_get_time hmt clk].
Proof.
  intros Hkey Hp Hwf. unfold vips__thread_gate_stop.
  unfold vips_thread_profile_get, g_private_get. simpl.
  rewrite Hkey. simpl. rewrite Hp.
  unfold gate_lookup_or_new, g_hash_table_lookup, gate_call_allocations.
  destruct p as [pa pn [ta entries]]. simpl.
  unfold profile_wf in Hwf. simpl in Hwf.
  destruct (entries !! name) as [g|] eqn:Hg.
  - pose proof (Hwf name g Hg) as (Hname & Hstart & Hstop). simpl.
    destruct (gate_block_record_count (gate_stop g) (vips_get_time hmt clk) s
                Hstop) as (news & b' & Hrec & Hfresh & _ & _ & Hent & Hlen).
    rewrite Hrec. simpl. by exists news, g, b'.
  - destruct (gate_new_count name s)
      as (news0 & g & Hnew & Hfresh0 & _ & Hgwf & Hview & _ & Hi0 & Hlen0).
    simpl. rewrite Hnew. simpl. pose proof Hgwf as (Hname & Hstart & Hstop).
    destruct (gate_block_record_count (gate_stop g) (vips_get_time hmt clk)
                (allocated_state news0 s) Hstop)
      as (news & b' & Hrec & Hfresh & _ & _ & Hent & Hlen).
    rewrite Hrec. simpl.
    rewrite decide_False in Hlen by (rewrite Hi0; unfold VIPS_GATE_SIZE; lia).
    destruct news; [|done]. rewrite allocated_state_nil.
    unfold gate_write_back, g_private_set. simpl.
    rewrite hash_table_insert_insert. by exists news0, g, b'.
Qed.

(** ** The five ways a call changes the process *)

Lemma step_shape hmt cs c s s' :
  process_inv hmt cs s →
  step hmt c s = Ok (tt, s') →
  (∃ self name,
     c = Attach self name ∧ private_values s !! self = None ∧
     s' = attached_state self name (once_state s)) ∨
  (∃ self p p' news,
     call_thread c = Some self ∧ ¬ is_attach c ∧
     private_values s !! self = Some p ∧
     s' = set_private (<[self := p']> (private_values s))
            (allocated_state news s) ∧
     fresh_for news s ∧ profile_addrs p' ≡ₚ profile_addrs p ++ news) ∨
  (∃ self p,
     c = ThreadExit self ∧ private_values s !! self = Some p ∧
     s' = released (profile_addrs p)
            (add_effects (teardown_writes (vips__thread_fp s) p)
               (set_private (delete self (private_values s)) s))) ∨
  (c = ProfileStop ∧ vips__thread_profile s = true ∧
   is_Some (vips__thread_fp s) ∧ s' = set_fp None (add_effects [Fclose] s)) ∨
  (¬ is_attach c ∧ s' = s).
Proof.
  intros Hinv Hstep.
  destruct c as [self name|self clk name|self clk name|self|];
    simpl in Hstep.
  - left. exists self, name.
    by destruct (attach_inv hmt cs self name s s' Hinv Hstep) as (? & ? & _).
  - destruct (private_values s !! self) as [p|] eqn:Hp.
    + destruct (gate_start_spec hmt self clk name p s)
        as (news & p' & Hspec & Hfresh & Hperm & _);
        [by eapply inv_attached_key|done|by eapply inv_wf|].
      rewrite Hspec in Hstep. injection Hstep as <-.
      right. left. exists self, p, p', news.
      split; [done|]. split; [by intros []|]. done.
    + apply gate_start_unattached in Hstep as ->; [|done]. do 4 right. by split; [intros []|].
  - destruct (private_values s !! self) as [p|] eqn:Hp.
    + destruct (gate_stop_spec hmt self clk name p s)
        as (news & p' & Hspec & Hfresh & Hperm & _);
        [by eapply inv_attached_key|done|by eapply inv_wf|].
      rewrite Hspec in Hstep. injection Hstep as <-.
      right. left. exists self, p, p', news.
      split; [done|]. split; [by intros []|]. done.
    + apply gate_stop_unattached in Hstep as ->; [|done]. do 4 right. by split; [intros []|].
  - destruct (private_values s !! self) as [p|] eqn:Hp.
    + rewrite (thread_exit_attached hmt cs self p) in Hstep by done.
      injection Hstep as <-. do 2 right. left. by exists self, p.
    + rewrite thread_exit_unattached in Hstep by done.
      injection Hstep as <-. do 4 right. by split; [intros []|].
  - rewrite profile_stop_spec in Hstep. injection Hstep as <-.
    destruct (vips__thread_profile s) eqn:Hflag;
      [|do 4 right; by split; [intros []|]].
    destruct (vips__thread_fp s) as [fp|] eqn:Hfp;
      [|do 4 right; by split; [intros []|]].
    do 3 right. left. split; [done|]. split; [done|]. split; [|done].
    by eexists.
Qed.

(** ** Threads do not see each other *)

Lemma step_other_thread hmt cs c s s' other :
  process_inv hmt cs s →
  step hmt c s = Ok (tt, s') →
  call_thread c ≠ Some other →
  private_values s' !! other = private_values s !! other.
Proof.
  intros Hinv Hstep Hother.
  destruct (step_shape hmt cs c s s' Hinv Hstep)
    as [(self & name & -> & _ & ->)
       |[(self & p & p' & news & Hself & _ & _ & -> & _)
        |[(self & p & -> & _ & ->)|[(-> & _ & _ & ->)|[_ ->]]]]];
    simpl in *; try done.
  - rewrite once_state_private. apply lookup_insert_ne. congruence.
  - apply lookup_insert_ne. congruence.
  - apply lookup_delete_ne. congruence.
Qed.

(** X1: in a process reached by any calls, further calls made on other
    threads, and stop calls, return with the slot of a thread holding what
    it held: the same profile with the same gates, chains and addresses,
    or none. *)
Theorem calls_leave_other_threads hmt cs s0 s cs' s' other :
  initial s0 →
  run hmt cs s0 = Ok (tt, s) →
  Forall (λ c, call_thread c ≠ Some other) cs' →
  run hmt cs' s = Ok (tt, s') →
  private_values s' !! other = private_values s !! other.
Proof.
  intros Hinit Hrun Hcs'. pose proof (run_inv hmt cs s0 s Hinit Hrun) as Hinv.
  clear Hinit Hrun. revert cs s Hinv.
  induction Hcs' as [|c cs' Hc _ IH]; intros cs s Hinv Hrun'.
  - by injection Hrun' as <-.
  - unfold run in Hrun'. simpl in Hrun'.
    destruct (step hmt c s) as [[[] s1]| |msg| |] eqn:Hstep; try done.
    rewrite (IH (cs ++ [c]) s1); [|by apply (step_inv hmt cs c s)|done].
    by apply (step_other_thread hmt cs c s s1).
Qed.

(** ** Gate calls on a thread without a profile, the key made *)

Lemma gate_calls_unattached_run hmt self s cs :
  vips_thread_profile_key s = Some ProfileKey →
  private_values s !! self = None →
  Forall (gate_call_of self) cs →
  run hmt cs s = Ok (tt, s).
Proof.
  intros Hkey Hp Hcs. induction Hcs as [|c cs Hc _ IH]; [done|].
  unfold run in *.
  change (foreach (step hmt) (c :: cs) s)
    with ((step hmt c ;;; foreach (step hmt) cs) s).
  unfold bind.
  destruct c as [| self' clk name | self' clk name | |];
    simpl in Hc; try done; subst self'; unfold step.
  - by rewrite gate_start_noprofile, Hkey.
  - by rewrite gate_stop_noprofile, Hkey.
Qed.

(** X2: in a process in which some call has attached a thread, so that the
    key has been made, a thread whose slot holds no profile, having never
    attached or having exited, gets NULL from [vips_thread_profile_get],
    and its start and stop calls return with the whole process as it was:
    the live allocations, the trace of effects and the slots of all
    threads; so does every sequence of such calls. *)
Theorem gate_calls_on_unattached_thread hmt cs s0 s self :
  initial s0 →
  run hmt cs s0 = Ok (tt, s) →
  Exists is_attach cs →
  private_values s !! self = None →
  vips_thread_profile_get self s = Ok (None, s) ∧
  (∀ clk name, vips__thread_gate_start hmt self clk name s = Ok (tt, s)) ∧
  (∀ clk name, vips__thread_gate_stop hmt self clk name s = Ok (tt, s)) ∧
  (∀ cs', Forall (gate_call_of self) cs' → run hmt cs' s = Ok (tt, s)).
Proof.
  intros Hinit Hrun Hattached Hp.
  pose proof (run_inv hmt cs s0 s Hinit Hrun) as Hinv.
  assert (vips_thread_profile_key s = Some ProfileKey) as Hkey.
  { apply (sink_key _ (inv_sink _ _ _ Hinv)).
    by apply (run_once hmt cs s0 s Hinit Hrun). }
  split; [by apply profile_get_unattached|]. split; [|split].
  - intros clk name. by rewrite gate_start_noprofile, Hkey.
  - intros clk name. by rewrite gate_stop_noprofile, Hkey.
  - intros cs' Hcs'. by apply (gate_calls_unattached_run hmt self).
Qed.

(** ** What is in memory is what was called *)

(** X3: in a process reached by the calls [cs], a thread has a profile
    exactly when [cs] has it attached and not yet exited, and every gate of
    that profile holds, in its start chain and in its stop chain, exactly
    the timestamps of the start and stop calls the thread made on that name
    since its attach, in the order of the calls. *)
Theorem memory_holds_the_calls hmt cs s0 s self :
  initial s0 →
  run hmt cs s0 = Ok (tt, s) →
  logged hmt cs !! self =
    (λ p, (λ g, (chain_entries (gate_start g), chain_entries (gate_stop g)))
            <$> tbl_entries (profile_gates p))
    <$> private_values s !! self.
Proof.
  intros Hinit Hrun. pose proof (run_inv hmt cs s0 s Hinit Hrun) as Hinv.
  by rewrite (logged_view_lookup _ _ _ _ Hinv).
Qed.

(** ** Nothing leaks *)

Lemma step_balance hmt cs c s s' (before : gset addr) :
  process_inv hmt cs s →
  step hmt c s = Ok (tt, s') →
  allocated s = before ∪ list_to_set (owned s) →
  (∀ a, a ∈ owned s → a ∉ before) →
  allocated s' = before ∪ list_to_set (owned s') ∧
  (∀ a, a ∈ owned s' → a ∉ before).
Proof.
  intros Hinv Hstep Hbal Hout.
  pose proof (mem_nodup _ (inv_memory _ _ _ Hinv)) as Hnodup.
  destruct (step_shape hmt cs c s s' Hinv Hstep)
    as [(self & name & -> & Hnone & ->)
       |[(self & p & p' & news & _ & _ & Hp & -> & [_ Hfresh] & Hperm)
        |[(self & p & -> & Hp & ->)|[(-> & _ & _ & ->)|[_ ->]]]]];
    try done.
  - assert (owned (attached_state self name (once_state s))
            ≡ₚ owned s ++ [g_new_addr (once_state s);
                           g_new_addr (g_new_state (once_state s))])
      as Hperm.
    { unfold owned, attached_state. simpl.
      rewrite owned_by_insert, delete_id
        by (by rewrite once_state_private).
      rewrite attached_profile_addrs, once_state_private.
      solve_Permutation. }
    destruct (fresh_for_app [g_new_addr (once_state s)]
                [g_new_addr (g_new_state (once_state s))] (once_state s))
      as [_ Hfresh].
    { apply fresh_for_g_new. }
    { rewrite <-g_new_state_allocated. apply fresh_for_g_new. }
    rewrite once_state_allocated in Hfresh. split.
    + apply set_eq. intros a. simpl.
      rewrite once_state_allocated, Hbal.
      rewrite !elem_of_union, !elem_of_list_to_set, Hperm, elem_of_app.
      clear. set_solver.
    + intros a. rewrite Hperm, elem_of_app. intros [Ha|Ha]; [by apply Hout|].
      intros Hin. apply (Hfresh a Ha). rewrite Hbal. set_solver.
  - assert (owned (set_private (<[self:=p']> (private_values s))
                     (allocated_state news s)) ≡ₚ owned s ++ news) as Hperm'.
    { unfold owned. simpl. rewrite owned_by_insert, Hperm.
      rewrite (owned_by_lookup _ _ _ Hp). solve_Permutation. }
    split.
    + apply set_eq. intros a. simpl. rewrite Hbal.
      rewrite !elem_of_union, !elem_of_list_to_set, Hperm', elem_of_app.
      tauto.
    + intros a. rewrite Hperm', elem_of_app. intros [Ha|Ha]; [by apply Hout|].
      intros Hin. apply (Hfresh a Ha). rewrite Hbal. set_solver.
  - pose proof (owned_by_lookup _ _ _ Hp) as Hperm. fold (owned s) in Hperm.
    rewrite Hperm in Hnodup.
    apply NoDup_app in Hnodup as (_ & Hdisj & _).
    assert (∀ a, a ∈ owned s ↔
                 a ∈ profile_addrs p ∨
                 a ∈ owned_by (delete self (private_values s))) as Hin.
    { intros a. by rewrite Hperm, elem_of_app. }
    split.
    + apply set_eq. intros a. unfold owned. simpl. rewrite Hbal.
      rewrite elem_of_difference, !elem_of_union, !elem_of_list_to_set, Hin.
      specialize (Hdisj a). specialize (Hout a). rewrite Hin in Hout.
      tauto.
    + intros a Ha. apply Hout, Hin. by right.
Qed.

Lemma run_balance_from hmt cs0 cs s s' (before : gset addr) :
  process_inv hmt cs0 s →
  run hmt cs s = Ok (tt, s') →
  allocated s = before ∪ list_to_set (owned s) →
  (∀ a, a ∈ owned s → a ∉ before) →
  allocated s' = before ∪ list_to_set (owned s') ∧
  (∀ a, a ∈ owned s' → a ∉ before).
Proof.
  revert cs0 s. induction cs as [|c cs IH]; intros cs0 s Hinv Hrun Hbal Hout.
  - by injection Hrun as <-.
  - unfold run in Hrun. simpl in Hrun.
    destruct (step hmt c s) as [[[] s1]| |msg| |] eqn:Hstep; try done.
    destruct (step_balance hmt cs0 c s s1 before Hinv Hstep Hbal Hout)
      as [Hbal1 Hout1].
    apply (IH (cs0 ++ [c]) s1); try done. by apply (step_inv hmt cs0 c s).
Qed.

(** X4: in a process reached by any calls, the live allocations are those
    that were live before the first call together with the addresses the
    profiles of the attached threads hold, the two being apart; so once
    every attached thread has exited, what is live is what was live before
    the first call. *)
Theorem memory_balance hmt cs s0 s :
  initial s0 →
  run hmt cs s0 = Ok (tt, s) →
  allocated s = allocated s0 ∪ list_to_set (owned s) ∧
  (∀ a, a ∈ owned s → a ∉ allocated s0) ∧
  (private_values s = ∅ → allocated s = allocated s0).
Proof.
  intros Hinit Hrun.
  assert (owned s0 = []) as Hempty.
  { destruct Hinit as (_ & _ & _ & Hpv & _). unfold owned, owned_by.
    by rewrite Hpv, map_to_list_empty. }
  destruct (run_balance_from hmt [] cs s0 s (allocated s0)
              (initial_inv hmt s0 Hinit) Hrun) as [Hbal Hout].
  { rewrite Hempty. set_solver. }
  { intros a. rewrite Hempty. by intros ?%elem_of_nil. }
  split; [done|]. split; [done|].
  intros Hpv. rewrite Hbal. unfold owned, owned_by.
  rewrite Hpv, map_to_list_empty. set_solver.
Qed.

(** ** The lines of a saved chain *)

Lemma gate_size_nat : Z.to_nat VIPS_GATE_SIZE = 1000%nat.
Proof. unfold VIPS_GATE_SIZE. lia. Qed.

Lemma length_block_entries b :
  block_wf b → length (block_entries b) = Z.to_nat (blk_i b).
Proof.
  intros (Hi & Hlen & _)%block_wf_unfold. unfold block_entries.
  rewrite length_take. lia.
Qed.

Lemma chain_full_length p :
  block_wf p → blk_i p = VIPS_GATE_SIZE →
  length (chain_entries p) = (length (chain_blocks p) * 1000)%nat.
Proof.
  induction p as [a t i|a q t i IH] using block_chain_ind;
    intros Hwf Hfull; pose proof (length_block_entries _ Hwf) as Hlen;
    destruct Hwf as (Hi & Htime & Hprev); simpl in *.
  - rewrite Hlen, Hfull, gate_size_nat. lia.
  - destruct Hprev as (_ & Hqfull & Hq).
    rewrite length_app, Hlen, Hfull, gate_size_nat, (IH Hq Hqfull). lia.
Qed.

Lemma chain_lines b :
  block_wf b →
  length (chain_blocks b) = S (older_blocks (length (chain_entries b))) ∧
  block_save_calls b =
    chunk_lines (older_blocks (length (chain_entries b))) (chain_entries b).
Proof.
  unfold older_blocks. rewrite gate_size_nat.
  induction b as [a t i|a p t i IH] using block_chain_ind;
    intros Hwf; pose proof (length_block_entries _ Hwf) as Hlen;
    destruct Hwf as (Hi & Htime & Hprev).
  - cbn [chain_entries chain_blocks block_save_calls blk_prev length].
    rewrite app_nil_l, Hlen. cbn [blk_i] in *.
    rewrite Nat.div_small by (unfold VIPS_GATE_SIZE in *; lia).
    done.
  - destruct Hprev as (Hone & Hfull & Hp). destruct (IH Hp) as [Hblocks Hsave].
    pose proof (chain_full_length p Hp Hfull) as Hplen.
    cbn [chain_entries chain_blocks block_save_calls blk_prev length blk_i]
      in *.
    set (k := ((length (chain_entries p) - 1) / 1000)%nat) in *.
    assert (length (chain_entries p) = (S k * 1000)%nat) as Hp_len.
    { rewrite Hplen, Hblocks. done. }
    assert (((length (chain_entries p ++
                      block_entries (Block a (Some p) t i)) - 1) / 1000)%nat
            = S k) as ->.
    { rewrite length_app, Hp_len, Hlen. symmetry.
      apply (Nat.div_unique _ _ _ (Z.to_nat i - 1));
        unfold VIPS_GATE_SIZE in *; lia. }
    split; [by rewrite Hblocks|].
    cbn [chunk_lines]. rewrite gate_size_nat, <-Hp_len.
    rewrite drop_app_length, take_app_length. by rewrite Hsave.
Qed.

(** X5: in a process reached by any calls, a chain of a gate that holds [n]
    timestamps has [(n - 1) / 1000] blocks behind its current one (none
    for [n = 0]), and saving it prints one line per block: first the
    timestamps after the first [1000 * ((n - 1) / 1000)], last one first,
    then line by line the earlier thousands, each last one first; an empty
    chain prints one empty line. *)
Theorem saved_lines_by_count hmt cs s0 s self p name g chain :
  initial s0 →
  run hmt cs s0 = Ok (tt, s) →
  private_values s !! self = Some p →
  tbl_entries (profile_gates p) !! name = Some g →
  chain = gate_start g ∨ chain = gate_stop g →
  length (chain_blocks chain) = S (older_blocks (length (chain_entries chain))) ∧
  (∀ s1, vips_thread_gate_block_save chain s1 =
           Ok (tt, add_effects
                     (Fprintf <$>
                        chunk_lines
                          (older_blocks (length (chain_entries chain)))
                          (chain_entries chain)) s1)) ∧
  (chain_entries chain = [] →
   ∀ s1, vips_thread_gate_block_save chain s1 =
           Ok (tt, add_effects [Fprintf FmtNewline] s1)).
Proof.
  intros Hinit Hrun Hp Hg Hchain.
  pose proof (run_inv hmt cs s0 s Hinit Hrun) as Hinv.
  assert (block_wf chain) as Hwf.
  { destruct (inv_wf _ _ _ Hinv _ _ Hp name g Hg) as (_ & Hstart & Hstop).
    by destruct Hchain as [-> | ->]. }
  destruct (chain_lines chain Hwf) as [Hblocks Hsave].
  split; [done|]. split.
  - intros s1. by rewrite block_save_spec, Hsave.
  - intros Hnil s1. rewrite block_save_spec, Hsave, Hnil by done. done.
Qed.

(** ** The trace against the log and the lock *)

Lemma trace_scan_app st es1 es2 :
  trace_scan st (es1 ++ es2) =
    match trace_scan st es1 with
    | Some st' => trace_scan st' es2
    | None => None
    end.
Proof.
  revert st. induction es1 as [|e es1 IH]; intros [open locked]; [done|].
  destruct e as [a|a|path truncate opened|c|text| | |], open, locked;
    simpl; try done; apply IH.
Qed.

Lemma trace_scan_malloc st l : trace_scan st (Malloc <$> l) = Some st.
Proof. destruct st. induction l as [|a l IH]; [done|]. exact IH. Qed.

Lemma trace_scan_free st l : trace_scan st (Free <$> l) = Some st.
Proof. destruct st. induction l as [|a l IH]; [done|]. exact IH. Qed.

Lemma trace_scan_fprintf l :
  trace_scan (true, true) (Fprintf <$> l) = Some (true, true).
Proof. induction l as [|c l IH]; [done|]. exact IH. Qed.

Lemma trace_scan_teardown fp p :
  trace_scan (is_open_stream fp, false) (teardown_writes fp p) =
    Some (is_open_stream fp, false).
Proof.
  destruct fp as [fp|]; [|done]. unfold teardown_writes.
  rewrite trace_scan_app. simpl. rewrite trace_scan_app, trace_scan_fprintf.
  done.
Qed.

Lemma step_trace hmt cs c s s' :
  process_inv hmt cs s →
  step hmt c s = Ok (tt, s') →
  trace_scan (false, false) (effects s) =
    Some (is_open_stream (vips__thread_fp s), false) →
  trace_scan (false, false) (effects s') =
    Some (is_open_stream (vips__thread_fp s'), false).
Proof.
  intros Hinv Hstep Hscan.
  destruct (step_shape hmt cs c s s' Hinv Hstep)
    as [(self & name & -> & _ & ->)
       |[(self & p & p' & news & _ & _ & _ & -> & _)
        |[(self & p & -> & _ & ->)|[(-> & _ & [fp Hfp] & ->)|[_ ->]]]]];
    try done.
  - unfold attached_state, allocated_state. simpl.
    rewrite trace_scan_app.
    assert (trace_scan (false, false) (effects (once_state s)) =
            Some (is_open_stream (vips__thread_fp (once_state s)), false))
      as ->; [|apply (trace_scan_malloc _ [_; _])].
    unfold once_state. destruct (once s) eqn:Honce; [done|].
    assert (vips__thread_fp s = None) as Hfp.
    { destruct (vips__thread_fp s) as [fp|] eqn:Hfp; [|done].
      destruct (sink_fp _ (inv_sink _ _ _ Hinv)) as (_ & Honce' & _);
        [by rewrite Hfp|congruence]. }
    rewrite Hfp in Hscan.
    destruct (vips__thread_profile s); simpl; [|by rewrite Hfp].
    by rewrite trace_scan_app, Hscan.
  - unfold allocated_state. simpl.
    by rewrite trace_scan_app, Hscan, trace_scan_malloc.
  - unfold released. simpl.
    rewrite !trace_scan_app, Hscan, trace_scan_teardown.
    apply trace_scan_free.
  - simpl. rewrite trace_scan_app, Hscan, Hfp. done.
Qed.

Lemma run_trace_from hmt cs0 cs s s' :
  process_inv hmt cs0 s →
  run hmt cs s = Ok (tt, s') →
  trace_scan (false, false) (effects s) =
    Some (is_open_stream (vips__thread_fp s), false) →
  trace_scan (false, false) (effects s') =
    Some (is_open_stream (vips__thread_fp s'), false).
Proof.
  revert cs0 s. induction cs as [|c cs IH]; intros cs0 s Hinv Hrun Hscan.
  - by injection Hrun as <-.
  - unfold run in Hrun. simpl in Hrun.
    destruct (step hmt c s) as [[[] s1]| |msg| |] eqn:Hstep; try done.
    apply (IH (cs0 ++ [c]) s1); [by apply (step_inv hmt cs0 c s)|done|].
    by apply (step_trace hmt cs0 c s s1).
Qed.

(** X6: when the calls are made one after another, each running to its end
    before the next begins, as [run] has them, then over any such calls
    from the start of the process every [fprintf] to the log happens while
    the log is open and [vips__global_lock] is held, the lock is taken only
    while free and released only while held, the log is opened only while
    not open and closed only while open; at the end of the calls the lock
    is free and the log is open exactly when [vips__thread_fp] is not NULL.
    Calls that overlap in time are not covered: [vips_thread_profile_free]
    tests the stream and [vips__thread_profile_stop] closes it without
    taking the lock. *)
Theorem log_written_under_lock hmt cs s0 s :
  initial s0 →
  run hmt cs s0 = Ok (tt, s) →
  trace_scan (false, false) (effects s) =
    Some (is_open_stream (vips__thread_fp s), false).
Proof.
  intros Hinit Hrun.
  apply (run_trace_from hmt [] cs s0 s (initial_inv hmt s0 Hinit) Hrun).
  destruct Hinit as (_ & Hfp & _ & _ & Hes). by rewrite Hfp, Hes.
Qed.

(** ** What a gate call costs and what it touches *)

(** X7: in a process reached by any calls, a start call on a thread with a
    profile, whatever the enable flag, has no effect but allocations: three
    when the table has no gate of that name (the gate and its two first
    blocks), one when the gate is there and the current block of its start
    chain is full, none otherwise; a stop call likewise, by its stop
    chain. *)
Theorem gate_call_cost hmt cs s0 s self p clk name :
  initial s0 →
  run hmt cs s0 = Ok (tt, s) →
  private_values s !! self = Some p →
  (∃ s' news,
     vips__thread_gate_start hmt self clk name s = Ok (tt, s') ∧
     effects s' = effects s ++ (Malloc <$> news) ∧
     allocated s' = list_to_set news ∪ allocated s ∧
     NoDup news ∧ (∀ a, a ∈ news → a ∉ allocated s) ∧
     length news =
       gate_call_allocations gate_start
         (tbl_entries (profile_gates p) !! name)) ∧
  (∃ s' news,
     vips__thread_gate_stop hmt self clk name s = Ok (tt, s') ∧
     effects s' = effects s ++ (Malloc <$> news) ∧
     allocated s' = list_to_set news ∪ allocated s ∧
     NoDup news ∧ (∀ a, a ∈ news → a ∉ allocated s) ∧
     length news =
       gate_call_allocations gate_stop
         (tbl_entries (profile_gates p) !! name)).
Proof.
  intros Hinit Hrun Hp. pose proof (run_inv hmt cs s0 s Hinit Hrun) as Hinv.
  pose proof (inv_attached_key _ _ _ _ _ Hinv Hp) as Hkey.
  pose proof (inv_wf _ _ _ Hinv _ _ Hp) as Hwf.
  split.
  - destruct (gate_start_shape hmt self clk name p s Hkey Hp Hwf)
      as (news & g & b & Hcall & [Hnodup Hfresh] & Hlen & _).
    eexists _, news. split; [exact Hcall|]. done.
  - destruct (gate_stop_shape hmt self clk name p s Hkey Hp Hwf)
      as (news & g & b & Hcall & [Hnodup Hfresh] & Hlen & _).
    eexists _, news. split; [exact Hcall|]. done.
Qed.

(** X8: in a process reached by any calls, a start call on a thread with a
    profile leaves the profile its address and name, every gate of another
    name as it is, and of the gate it names the address, the name and the
    whole stop chain; it adds its timestamp at the end of the start chain.
    A gate it has to make starts with both chains empty. *)
Theorem gate_start_is_local hmt cs s0 s self p clk name :
  initial s0 →
  run hmt cs s0 = Ok (tt, s) →
  private_values s !! self = Some p →
  ∃ s' p' g',
    vips__thread_gate_start hmt self clk name s = Ok (tt, s') ∧
    private_values s' !! self = Some p' ∧
    profile_addr p' = profile_addr p ∧ profile_name p' = profile_name p ∧
    tbl_addr (profile_gates p') = tbl_addr (profile_gates p) ∧
    (∀ other, other ≠ name →
       tbl_entries (profile_gates p') !! other =
         tbl_entries (profile_gates p) !! other) ∧
    tbl_entries (profile_gates p') !! name = Some g' ∧
    gate_name g' = name ∧
    match tbl_entries (profile_gates p) !! name with
    | Some g =>
        gate_addr g' = gate_addr g ∧ gate_stop g' = gate_stop g ∧
        chain_entries (gate_start g') =
          chain_entries (gate_start g) ++ [vips_get_time hmt clk]
    | None =>
        chain_entries (gate_start g') = [vips_get_time hmt clk] ∧
        chain_entries (gate_stop g') = []
    end.
Proof.
  intros Hinit Hrun Hp. pose proof (run_inv hmt cs s0 s Hinit Hrun) as Hinv.
  pose proof (inv_attached_key _ _ _ _ _ Hinv Hp) as Hkey.
  pose proof (inv_wf _ _ _ Hinv _ _ Hp) as Hwf.
  destruct (gate_start_shape hmt self clk name p s Hkey Hp Hwf)
    as (news & g & b & Hcall & _ & _ & Hfound & Hent).
  eexists _, _, (set_gate_start b g). split; [exact Hcall|].
  split; [by simpl; rewrite lookup_insert_eq|]. simpl.
  split; [done|]. split; [done|]. split; [done|]. split.
  { intros other Hother. by rewrite lookup_insert_ne. }
  split; [by rewrite lookup_insert_eq|].
  destruct (tbl_entries (profile_gates p) !! name) as [g0|] eqn:Hg.
  - subst g0. split; [by destruct (Hwf name g Hg)|]. done.
  - destruct Hfound as [Hview Hname]. split; [done|].
    unfold gate_view in Hview. injection Hview as Hstart Hstop.
    by rewrite Hent, Hstart.
Qed.

(** X9: the same for a stop call: it leaves the profile its address and
    name, every gate of another name as it is, and of the gate it names the
    address, the name and the whole start chain; it adds its timestamp at
    the end of the stop chain. A gate it has to make starts with both
    chains empty. *)
Theorem gate_stop_is_local hmt cs s0 s self p clk name :
  initial s0 →
  run hmt cs s0 = Ok (tt, s) →
  private_values s !! self = Some p →
  ∃ s' p' g',
    vips__thread_gate_stop hmt self clk name s = Ok (tt, s') ∧
    private_values s' !! self = Some p' ∧
    profile_addr p' = profile_addr p ∧ profile_name p' = profile_name p ∧
    tbl_addr (profile_gates p') = tbl_addr (profile_gates p) ∧
    (∀ other, other ≠ name →
       tbl_entries (profile_gates p') !! other =
         tbl_entries (profile_gates p) !! other) ∧
    tbl_entries (profile_gates p') !! name = Some g' ∧
    gate_name g' = name ∧
    match tbl_entries (profile_gates p) !! name with
    | Some g =>
        gate_addr g' = gate_addr g ∧ gate_start g' = gate_start g ∧
        chain_entries (gate_stop g') =
          chain_entries (gate_stop g) ++ [vips_get_time hmt clk]
    | None =>
        chain_entries (gate_start g') = [] ∧
        chain_entries (gate_stop g') = [vips_get_time hmt clk]
    end.
Proof.
  intros Hinit Hrun Hp. pose proof (run_inv hmt cs s0 s Hinit Hrun) as Hinv.
  pose proof (inv_attached_key _ _ _ _ _ Hinv Hp) as Hkey.
  pose proof (inv_wf _ _ _ Hinv _ _ Hp) as Hwf.
  destruct (gate_stop_shape hmt self clk name p s Hkey Hp Hwf)
    as (news & g & b & Hcall & _ & _ & Hfound & Hent).
  eexists _, _, (set_gate_stop b g). split; [exact Hcall|].
  split; [by simpl; rewrite lookup_insert_eq|]. simpl.
  split; [done|]. split; [done|]. split; [done|]. split.
  { intros other Hother. by rewrite lookup_insert_ne. }
  split; [by rewrite lookup_insert_eq|].
  destruct (tbl_entries (profile_gates p) !! name) as [g0|] eqn:Hg.
  - subst g0. split; [by destruct (Hwf name g Hg)|]. done.
  - destruct Hfound as [Hview Hname]. split; [done|].
    unfold gate_view in Hview. injection Hview as Hstart Hstop.
    split; [done|]. by rewrite Hent, Hstop.
Qed.

(** ** After the log is closed *)

Lemma step_closed hmt cs c s s' :
  process_inv hmt cs s →
  step hmt c s = Ok (tt, s') →
  once s = true →
  vips__thread_fp s = None →
  once s' = true ∧ vips__thread_fp s' = None ∧
  ∃ es, effects s' = effects s ++ es ∧ Forall is_memory es.
Proof.
  intros Hinv Hstep Honce Hfp.
  destruct (step_shape hmt cs c s s' Hinv Hstep)
    as [(self & name & -> & _ & ->)
       |[(self & p & p' & news & _ & _ & _ & -> & _)
        |[(self & p & -> & _ & ->)|[(-> & _ & [fp Hsome] & ->)|[_ ->]]]]].
  - assert (once_state s = s) as -> by (unfold once_state; by rewrite Honce).
    split; [done|]. split; [done|]. eexists. split; [done|].
    by repeat constructor.
  - split; [done|]. split; [done|]. exists (Malloc <$> news).
    split; [done|]. by apply Forall_fmap, Forall_true.
  - split; [done|]. split; [done|]. exists (Free <$> profile_addrs p).
    split; [|by apply Forall_fmap, Forall_true].
    unfold released. simpl. by rewrite Hfp, app_nil_r.
  - congruence.
  - split; [done|]. split; [done|]. exists []. by rewrite app_nil_r.
Qed.

Lemma run_closed_from hmt cs0 cs s s' :
  process_inv hmt cs0 s →
  run hmt cs s = Ok (tt, s') →
  once s = true →
  vips__thread_fp s = None →
  vips__thread_fp s' = None ∧
  ∃ es, effects s' = effects s ++ es ∧ Forall is_memory es.
Proof.
  revert cs0 s. induction cs as [|c cs IH]; intros cs0 s Hinv Hrun Honce Hfp.
  - injection Hrun as <-. split; [done|]. exists []. by rewrite app_nil_r.
  - unfold run in Hrun. simpl in Hrun.
    destruct (step hmt c s) as [[[] s1]| |msg| |] eqn:Hstep; try done.
    destruct (step_closed hmt cs0 c s s1 Hinv Hstep Honce Hfp)
      as (Honce1 & Hfp1 & es1 & Hes1 & Hmem1).
    destruct (IH (cs0 ++ [c]) s1) as (Hfp' & es & Hes & Hmem); try done.
    { by apply (step_inv hmt cs0 c s). }
    split; [done|]. exists (es1 ++ es).
    split; [by rewrite Hes, Hes1, app_assoc|by apply Forall_app].
Qed.

(** X10: once some thread has attached, [vips__thread_profile_stop] is
    final: it closes the log if it is open, and whatever calls follow, the
    log is not opened again and nothing is written or printed; the only
    effects are allocations and frees, so that threads that exit afterwards
    free their records without saving them. Without the enable flag the
    same holds with no close. *)
Theorem stop_is_final hmt cs s0 s cs' s' :
  initial s0 →
  run hmt cs s0 = Ok (tt, s) →
  once s = true →
  run hmt (ProfileStop :: cs') s = Ok (tt, s') →
  vips__thread_fp s' = None ∧
  ∃ es,
    effects s' =
      effects s ++
      (if is_open_stream (vips__thread_fp s) then [Fclose] else []) ++ es ∧
    Forall is_memory es.
Proof.
  intros Hinit Hrun Honce Hrun'.
  pose proof (run_inv hmt cs s0 s Hinit Hrun) as Hinv.
  unfold run in Hrun'. simpl in Hrun'.
  destruct (vips__thread_profile_stop s) as [[[] s1]| |msg| |] eqn:Hstop;
    try done.
  assert (step hmt ProfileStop s = Ok (tt, s1)) as Hstep by done.
  pose proof (step_inv hmt cs ProfileStop s s1 Hinv Hstep) as Hinv1.
  rewrite profile_stop_spec in Hstop. injection Hstop as Hs1.
  assert (once s1 = true ∧ vips__thread_fp s1 = None ∧
          effects s1 =
            effects s ++
            (if is_open_stream (vips__thread_fp s) then [Fclose] else []))
    as (Honce1 & Hfp1 & Hes1).
  { destruct (vips__thread_fp s) as [fp|] eqn:Hfp.
    - destruct (sink_fp _ (inv_sink _ _ _ Hinv)) as (Hflag & _);
        [by rewrite Hfp|].
      rewrite Hflag in Hs1. by subst s1.
    - assert (s1 = s) as -> by (by destruct (vips__thread_profile s)).
      by rewrite Hfp, app_nil_r. }
  destruct (run_closed_from hmt (cs ++ [ProfileStop]) cs' s1 s' Hinv1 Hrun'
              Honce1 Hfp1) as (Hfp' & es & Hes & Hmem).
  split; [done|]. exists es. split; [|done]. by rewrite Hes, Hes1, app_assoc.
Qed.

(** ** The life of a thread *)

Lemma run_gate_calls_from hmt cs0 cs s s' self :
  process_inv hmt cs0 s →
  Forall (gate_call_of self) cs →
  run hmt cs s = Ok (tt, s') →
  is_Some (private_values s !! self) →
  is_Some (private_values s' !! self) ∧
  ∀ other, other ≠ self →
    private_values s' !! other = private_values s !! other.
Proof.
  intros Hinv Hcs. revert cs0 s Hinv.
  induction Hcs as [|c cs Hc _ IH]; intros cs0 s Hinv Hrun Hsome.
  - by injection Hrun as <-.
  - unfold run in Hrun. simpl in Hrun.
    destruct (step hmt c s) as [[[] s1]| |msg| |] eqn:Hstep; try done.
    assert (is_Some (private_values s1 !! self) ∧
            ∀ other, other ≠ self →
              private_values s1 !! other = private_values s !! other)
      as [Hsome1 Hother1].
    { destruct (step_shape hmt cs0 c s s1 Hinv Hstep)
        as [(self' & name & -> & _ & ->)
           |[(self' & p & p' & news & Hself & _ & _ & -> & _)
            |[(self' & p & -> & _ & ->)|[(-> & _ & _ & ->)|[_ ->]]]]];
        try done.
      assert (self' = self) as ->.
      { destruct c; simpl in Hc, Hself; try done; congruence. }
      simpl. split; [by rewrite lookup_insert_eq|].
      intros other Hother. by rewrite lookup_insert_ne. }
    destruct (IH (cs0 ++ [c]) s1) as [Hsome' Hother']; try done.
    { by apply (step_inv hmt cs0 c s). }
    split; [done|]. intros other Hother.
    by rewrite Hother', Hother1.
Qed.

Lemma run_app hmt cs1 cs2 s :
  run hmt (cs1 ++ cs2) s =
    match run hmt cs1 s with
    | Ok (_, s1) => run hmt cs2 s1
    | AssertionFailed => AssertionFailed
    | ErrorExit msg => ErrorExit msg
    | Undefined => Undefined
    | OutsideContract => OutsideContract
    end.
Proof.
  unfold run. revert s. induction cs1 as [|c cs1 IH]; intros s; simpl.
  - done.
  - destruct (step hmt c s) as [[[] s1]| |msg| |]; [|done..]. apply IH.
Qed.

Lemma run_one hmt c s : run hmt [c] s = step hmt c s.
Proof.
  unfold run. simpl. by destruct (step hmt c s) as [[[] s1]| |msg| |].
Qed.

(** X11: the whole life of a thread leaves no mark on the process but the
    trace. If, in a process reached by any calls, a thread attaches, makes
    any number of start and stop calls, and exits, then every other thread
    has the profile it had, the thread itself has none again, and exactly
    the memory that was allocated before is allocated after. *)
Theorem thread_lifetime_restores hmt cs s0 s self name cs' s' :
  initial s0 →
  run hmt cs s0 = Ok (tt, s) →
  Forall (gate_call_of self) cs' →
  run hmt (Attach self name :: cs' ++ [ThreadExit self]) s = Ok (tt, s') →
  private_values s' = private_values s ∧ allocated s' = allocated s.
Proof.
  intros Hinit Hrun Hcs' Hrun'.
  pose proof (run_inv hmt cs s0 s Hinit Hrun) as Hinv.
  assert (private_values s' = private_values s) as Hpv.
  { change (Attach self name :: cs' ++ [ThreadExit self])
      with ([Attach self name] ++ cs' ++ [ThreadExit self]) in Hrun'.
    rewrite run_app in Hrun'.
    destruct (run hmt [Attach self name] s) as [[[] s1]| |msg| |] eqn:Hrun1;
      try done.
    pose proof (run_inv_from hmt cs [Attach self name] s s1 Hinv Hrun1)
      as Hinv1.
    pose proof Hrun1 as Hstep1. rewrite run_one in Hstep1.
    destruct (step_shape hmt cs _ s s1 Hinv Hstep1)
      as [(self' & name' & [= <- <-] & Hnone & Hs1)
         |[(self' & p & p' & news & _ & Hna & _)
          |[(self' & p & [=] & _)|[([=] & _)|[Hna _]]]]];
      try (by destruct Hna).
    rewrite run_app in Hrun'.
    destruct (run hmt cs' s1) as [[[] s2]| |msg| |] eqn:Hrun2; try done.
    pose proof (run_inv_from hmt _ cs' s1 s2 Hinv1 Hrun2) as Hinv2.
    destruct (run_gate_calls_from hmt _ cs' s1 s2 self Hinv1 Hcs' Hrun2)
      as [[p2 Hp2] Hother2].
    { subst s1. simpl. by rewrite lookup_insert_eq. }
    unfold run in Hrun'. simpl in Hrun'.
    rewrite (thread_exit_attached hmt _ self p2 s2 Hinv2 Hp2) in Hrun'.
    injection Hrun' as <-. simpl.
    apply map_eq. intros other. destruct (decide (other = self)) as [->|Hne].
    - by rewrite lookup_delete_eq, Hnone.
    - rewrite lookup_delete_ne, Hother2 by done. subst s1. simpl.
      by rewrite lookup_insert_ne, once_state_private. }
  split; [done|].
  assert (owned s0 = []) as Hempty.
  { destruct Hinit as (_ & _ & _ & Hpv0 & _). unfold owned, owned_by.
    by rewrite Hpv0, map_to_list_empty. }
  destruct (run_balance_from hmt [] cs s0 s (allocated s0)
              (initial_inv hmt s0 Hinit) Hrun) as [Hbal Hout].
  { rewrite Hempty. set_solver. }
  { intros a. rewrite Hempty. by intros ?%elem_of_nil. }
  destruct (run_balance_from hmt cs _ s s' (allocated s0) Hinv Hrun' Hbal Hout)
    as [Hbal' _].
  rewrite Hbal', Hbal. unfold owned. by rewrite Hpv.
Qed.

(** ** The statements on a run *)

Lemma demo_once : once demo_state = true.
Proof. vm_compute. reflexivity. Qed.

Lemma demo_gate_found :
  tbl_entries (profile_gates demo_profile) !! "decode" = Some demo_gate.
Proof. vm_compute. reflexivity. Qed.

Lemma demo_second_run :
  run true demo_second_calls demo_state
    = Ok (tt, demo_after demo_second_calls).
Proof. vm_compute. reflexivity. Qed.

Lemma demo_second_thread :
  Forall (λ c, call_thread c ≠ Some 7%nat) demo_second_calls.
Proof. by repeat constructor. Qed.

Lemma demo_stop_run :
  run true (ProfileStop :: demo_late_exit) demo_state
    = Ok (tt, demo_after (ProfileStop :: demo_late_exit)).
Proof. vm_compute. reflexivity. Qed.

Lemma demo_gate_calls_of : Forall (gate_call_of 9%nat) demo_gate_calls.
Proof. by repeat constructor. Qed.

Lemma demo_life_run :
  run true (Attach 9%nat "worker-2" :: demo_gate_calls ++ [ThreadExit 9%nat])
    demo_state
    = Ok (tt, demo_after (Attach 9%nat "worker-2" ::
                            demo_gate_calls ++ [ThreadExit 9%nat])).
Proof. vm_compute. reflexivity. Qed.

Lemma calls_leave_other_threads_witness :
  initial (new_process true true) ∧
  run true demo_calls (new_process true true) = Ok (tt, demo_state) ∧
  Forall (λ c, call_thread c ≠ Some 7%nat) demo_second_calls ∧
  run true demo_second_calls demo_state
    = Ok (tt, demo_after demo_second_calls) ∧
  private_values (demo_after demo_second_calls) !! 7%nat =
    private_values demo_state !! 7%nat.
Proof.
  split; [apply demo_initial|]. split; [apply demo_run|].
  split; [apply demo_second_thread|]. split; [apply demo_second_run|].
  exact (calls_leave_other_threads true demo_calls (new_process true true)
           demo_state demo_second_calls (demo_after demo_second_calls) 7%nat
           (demo_initial true) demo_run demo_second_thread demo_second_run).
Defined.

Lemma demo_has_attach : Exists is_attach demo_calls.
Proof. by left. Qed.

Lemma gate_calls_on_unattached_thread_witness :
  initial (new_process true true) ∧
  run true demo_calls (new_process true true) = Ok (tt, demo_state) ∧
  Exists is_attach demo_calls ∧
  private_values demo_state !! 3%nat = None ∧
  vips_thread_profile_get 3%nat demo_state = Ok (None, demo_state) ∧
  (∀ clk name,
     vips__thread_gate_start true 3%nat clk name demo_state
       = Ok (tt, demo_state)) ∧
  (∀ clk name,
     vips__thread_gate_stop true 3%nat clk name demo_state
       = Ok (tt, demo_state)) ∧
  (∀ cs', Forall (gate_call_of 3%nat) cs' →
          run true cs' demo_state = Ok (tt, demo_state)).
Proof.
  split; [apply demo_initial|]. split; [apply demo_run|].
  split; [apply demo_has_attach|]. split; [vm_compute; reflexivity|].
  apply (gate_calls_on_unattached_thread true demo_calls
           (new_process true true) demo_state 3%nat
           (demo_initial true) demo_run demo_has_attach).
  vm_compute. reflexivity.
Defined.

Lemma memory_holds_the_calls_witness :
  initial (new_process true true) ∧
  run true demo_calls (new_process true true) = Ok (tt, demo_state) ∧
  logged true demo_calls !! 7%nat =
    (λ p, (λ g, (chain_entries (gate_start g), chain_entries (gate_stop g)))
            <$> tbl_entries (profile_gates p))
      <$> private_values demo_state !! 7%nat.
Proof.
  split; [apply demo_initial|]. split; [apply demo_run|].
  exact (memory_holds_the_calls true demo_calls (new_process true true)
           demo_state 7%nat (demo_initial true) demo_run).
Defined.

Lemma memory_balance_witness :
  initial (new_process true true) ∧
  run true demo_calls (new_process true true) = Ok (tt, demo_state) ∧
  allocated demo_state =
    allocated (new_process true true) ∪ list_to_set (owned demo_state) ∧
  (∀ a, a ∈ owned demo_state → a ∉ allocated (new_process true true)) ∧
  (private_values demo_state = ∅ →
   allocated demo_state = allocated (new_process true true)).
Proof.
  split; [apply demo_initial|]. split; [apply demo_run|].
  exact (memory_balance true demo_calls (new_process true true) demo_state
           (demo_initial true) demo_run).
Defined.

Lemma saved_lines_by_count_witness :
  initial (new_process true true) ∧
  run true demo_calls (new_process true true) = Ok (tt, demo_state) ∧
  private_values demo_state !! 7%nat = Some demo_profile ∧
  tbl_entries (profile_gates demo_profile) !! "decode" = Some demo_gate ∧
  length (chain_blocks (gate_start demo_gate)) =
    S (older_blocks (length (chain_entries (gate_start demo_gate)))) ∧
  (∀ s1,
     vips_thread_gate_block_save (gate_start demo_gate) s1 =
       Ok (tt, add_effects
                 (Fprintf <$>
                    chunk_lines
                      (older_blocks
                         (length (chain_entries (gate_start demo_gate))))
                      (chain_entries (gate_start demo_gate))) s1)).
Proof.
  split; [apply demo_initial|]. split; [apply demo_run|].
  split; [apply demo_attached|]. split; [apply demo_gate_found|].
  destruct (saved_lines_by_count true demo_calls (new_process true true)
              demo_state 7%nat demo_profile "decode" demo_gate
              (gate_start demo_gate)
              (demo_initial true) demo_run demo_attached demo_gate_found
              (or_introl eq_refl))
    as (Hlen & Hsave & _).
  split; [exact Hlen|exact Hsave].
Defined.

Lemma scenario_stopped_run :
  run true (scenario_calls ++ [ProfileStop]) (new_process true true)
    = Ok (tt, scenario_stopped).
Proof. vm_compute. reflexivity. Qed.

Lemma log_written_under_lock_witness :
  initial (new_process true true) ∧
  run true (scenario_calls ++ [ProfileStop]) (new_process true true)
    = Ok (tt, scenario_stopped) ∧
  count is_fprintf (effects scenario_stopped) = 10%nat ∧
  count is_open (effects scenario_stopped) = 1%nat ∧
  count is_close (effects scenario_stopped) = 1%nat ∧
  MutexLock ∈ effects scenario_stopped ∧
  MutexUnlock ∈ effects scenario_stopped ∧
  trace_scan (false, false) (effects scenario_stopped) =
    Some (is_open_stream (vips__thread_fp scenario_stopped), false).
Proof.
  split; [apply demo_initial|]. split; [apply scenario_stopped_run|].
  split; [vm_compute; reflexivity|]. split; [vm_compute; reflexivity|].
  split; [vm_compute; reflexivity|].
  split; [vm_compute; apply list_elem_of_In; simpl; tauto|].
  split; [vm_compute; apply list_elem_of_In; simpl; tauto|].
  exact (log_written_under_lock true (scenario_calls ++ [ProfileStop])
           (new_process true true) scenario_stopped
           (demo_initial true) scenario_stopped_run).
Defined.

Lemma gate_call_cost_witness :
  initial (new_process true true) ∧
  run true demo_calls (new_process true true) = Ok (tt, demo_state) ∧
  private_values demo_state !! 7%nat = Some demo_profile ∧
  ∃ s' news,
    vips__thread_gate_start true 7%nat (demo_clock 200) "encode" demo_state
      = Ok (tt, s') ∧
    effects s' = effects demo_state ++ (Malloc <$> news) ∧
    allocated s' = list_to_set news ∪ allocated demo_state ∧
    length news =
      gate_call_allocations gate_start
        (tbl_entries (profile_gates demo_profile) !! "encode").
Proof.
  split; [apply demo_initial|]. split; [apply demo_run|].
  split; [apply demo_attached|].
  destruct (gate_call_cost true demo_calls (new_process true true) demo_state
              7%nat demo_profile (demo_clock 200) "encode"
              (demo_initial true) demo_run demo_attached)
    as [(s' & news & Hcall & Hes & Halloc & _ & _ & Hlen) _].
  exists s', news. split; [exact Hcall|]. split; [exact Hes|].
  split; [exact Halloc|exact Hlen].
Defined.

Lemma gate_start_is_local_witness :
  initial (new_process true true) ∧
  run true demo_calls (new_process true true) = Ok (tt, demo_state) ∧
  private_values demo_state !! 7%nat = Some demo_profile ∧
  ∃ s' p' g',
    vips__thread_gate_start true 7%nat (demo_clock 200) "decode" demo_state
      = Ok (tt, s') ∧
    private_values s' !! 7%nat = Some p' ∧
    tbl_entries (profile_gates p') !! "decode" = Some g' ∧
    gate_name g' = "decode".
Proof.
  split; [apply demo_initial|]. split; [apply demo_run|].
  split; [apply demo_attached|].
  destruct (gate_start_is_local true demo_calls (new_process true true)
              demo_state 7%nat demo_profile (demo_clock 200) "decode"
              (demo_initial true) demo_run demo_attached)
    as (s' & p' & g' & Hcall & Hp' & _ & _ & _ & _ & Hg' & Hname & _).
  exists s', p', g'. split; [exact Hcall|]. split; [exact Hp'|].
  split; [exact Hg'|exact Hname].
Defined.

Lemma gate_stop_is_local_witness :
  initial (new_process true true) ∧
  run true demo_calls (new_process true true) = Ok (tt, demo_state) ∧
  private_values demo_state !! 7%nat = Some demo_profile ∧
  ∃ s' p' g',
    vips__thread_gate_stop true 7%nat (demo_clock 260) "decode" demo_state
      = Ok (tt, s') ∧
    private_values s' !! 7%nat = Some p' ∧
    tbl_entries (profile_gates p') !! "decode" = Some g' ∧
    gate_name g' = "decode".
Proof.
  split; [apply demo_initial|]. split; [apply demo_run|].
  split; [apply demo_attached|].
  destruct (gate_stop_is_local true demo_calls (new_process true true)
              demo_state 7%nat demo_profile (demo_clock 260) "decode"
              (demo_initial true) demo_run demo_attached)
    as (s' & p' & g' & Hcall & Hp' & _ & _ & _ & _ & Hg' & Hname & _).
  exists s', p', g'. split; [exact Hcall|]. split; [exact Hp'|].
  split; [exact Hg'|exact Hname].
Defined.

Lemma stop_is_final_witness :
  initial (new_process true true) ∧
  run true demo_calls (new_process true true) = Ok (tt, demo_state) ∧
  once demo_state = true ∧
  run true (ProfileStop :: demo_late_exit) demo_state
    = Ok (tt, demo_after (ProfileStop :: demo_late_exit)) ∧
  vips__thread_fp (demo_after (ProfileStop :: demo_late_exit)) = None ∧
  ∃ es,
    effects (demo_after (ProfileStop :: demo_late_exit)) =
      effects demo_state ++
      (if is_open_stream (vips__thread_fp demo_state)
       then [Fclose] else []) ++ es ∧
    Forall is_memory es.
Proof.
  split; [apply demo_initial|]. split; [apply demo_run|].
  split; [apply demo_once|]. split; [apply demo_stop_run|].
  exact (stop_is_final true demo_calls (new_process true true) demo_state
           demo_late_exit (demo_after (ProfileStop :: demo_late_exit))
           (demo_initial true) demo_run demo_once demo_stop_run).
Defined.

Lemma thread_lifetime_restores_witness :
  initial (new_process true true) ∧
  run true demo_calls (new_process true true) = Ok (tt, demo_state) ∧
  Forall (gate_call_of 9%nat) demo_gate_calls ∧
  run true (Attach 9%nat "worker-2" :: demo_gate_calls ++ [ThreadExit 9%nat])
    demo_state
    = Ok (tt, demo_after (Attach 9%nat "worker-2" ::
                            demo_gate_calls ++ [ThreadExit 9%nat])) ∧
  private_values (demo_after (Attach 9%nat "worker-2" ::
                                demo_gate_calls ++ [ThreadExit 9%nat]))
    = private_values demo_state ∧
  allocated (demo_after (Attach 9%nat "worker-2" ::
                           demo_gate_calls ++ [ThreadExit 9%nat]))
    = allocated demo_state.
Proof.
  split; [apply demo_initial|]. split; [apply demo_run|].
  split; [apply demo_gate_calls_of|]. split; [apply demo_life_run|].
  exact (thread_lifetime_restores true demo_calls (new_process true true)
           demo_state 9%nat "worker-2" demo_gate_calls
           (demo_after (Attach 9%nat "worker-2" ::
                          demo_gate_calls ++ [ThreadExit 9%nat]))
           (demo_initial true) demo_run demo_gate_calls_of demo_life_run).
Defined.
